(** * A shallow embedding of the Defcon game engine

    The Python sources embedded here are [src/game.py] (the game session
    and its scheduler), [src/templating.py] (templates, stage groups and
    actors) and [main.py] (reading the bot token).

    Conventions of the embedding:
    - a Python [int] is a [Z]; a Python [float] is a binary64 value, the
      primitive [float] with its IEEE 754 operations; an [int] that meets
      a [float] in an operation is converted as Python converts it;
    - a Python exception is a value of [exn]; a computation yields an
      [outcome]: a result, a raised exception, or [Unmodelled] when the
      text being formatted leaves the part of [str.format] described here;
    - the calls of [random] are inputs: every function that draws a random
      number takes the drawn number as an argument;
    - a coroutine is a computation of the monad [M]; [await] runs it, and a
      coroutine object that is created and not awaited runs nothing. *)

From Stdlib Require Import ZArith Floats String Ascii List Bool Lia DecimalString.
From stdpp Require Import base option list gmap strings.

(** A decimal literal of a float denotes the nearest binary64 value, as
    it does in Python. *)
#[local] Set Warnings "-inexact-float".

Local Open Scope string_scope.
Local Open Scope list_scope.
Local Open Scope Z_scope.

(** ** Exceptions and outcomes *)

(** The key carried by a [KeyError]. *)
Inductive pykey :=
| KInt (n : Z)
| KStr (s : string).

(** The built-in exceptions the three files can raise. *)
Inductive exn :=
| KeyError (k : pykey)
| IndexError
| ValueError
| TypeError
| AttributeError (name : string)
| NotImplementedError
| UnboundLocalError (name : string)
| OverflowError
| SystemExit (code : option Z).

(** [SystemExit] derives from [BaseException] only; the others derive
    from [Exception]. *)
Definition is_Exception (e : exn) : bool :=
  match e with
  | SystemExit _ => false
  | _ => true
  end.

Inductive outcome (A : Type) :=
| Ok (a : A)
| Raise (e : exn)
| Unmodelled.
Arguments Ok {A} a.
Arguments Raise {A} e.
Arguments Unmodelled {A}.

#[global] Instance outcome_ret : MRet outcome := fun A a => Ok a.
#[global] Instance outcome_bind : MBind outcome := fun A B f m =>
  match m with
  | Ok a => f a
  | Raise e => Raise e
  | Unmodelled => Unmodelled
  end.

(** ** Numbers *)

(** The binary64 value nearest to an integer, ties going to the even
    mantissa; an integer beyond the largest finite value goes to an
    infinity. *)
Definition round_to_float (n : Z) : float :=
  SF2Prim (binary_normalize prec emax n 0 false).

(** [float(n)] for an [int], which is also how an [int] enters an
    operation with a [float]: an integer that rounds to an infinity
    raises. *)
Definition float_of_int (n : Z) : outcome float :=
  let f := round_to_float n in
  if is_infinity f then Raise OverflowError else Ok f.

(** [x < n] for a [float] and an [int]: Python compares the two exact
    values, without converting the integer. *)
Definition float_lt_int (x : float) (n : Z) : bool :=
  match Prim2SF x with
  | S754_nan => false
  | S754_infinity s => s
  | S754_zero _ => 0 <? n
  | S754_finite s m e =>
      let v := if s then Zneg m else Zpos m in
      if 0 <=? e then v * 2 ^ e <? n else v <? n * 2 ^ (- e)
  end.

(** [str(n)] for an [int]. *)
Definition str_of_int (n : Z) : string :=
  NilZero.string_of_int (Z.to_int n).

(** ** Sequences *)

(** [l[i]] for a list or a tuple: a negative index counts from the end. *)
Definition getitem {A : Type} (l : list A) (i : Z) : outcome A :=
  let n := Z.of_nat (length l) in
  let j := if i <? 0 then i + n else i in
  if (j <? 0) || (n <=? j) then Raise IndexError
  else match nth_error l (Z.to_nat j) with
       | Some x => Ok x
       | None => Raise IndexError
       end.

(** [t.index(x)]: the first position holding [x], counted from [from]. *)
Fixpoint index_from (t : list Z) (x : Z) (from : Z) : outcome Z :=
  match t with
  | [] => Raise ValueError
  | y :: t' => if y =? x then Ok from else index_from t' x (from + 1)
  end.

Definition index (t : list Z) (x : Z) : outcome Z := index_from t x 0.

(** [itertools.accumulate] with addition. *)
Fixpoint accumulate_from (acc : Z) (ws : list Z) : list Z :=
  match ws with
  | [] => []
  | w :: ws' => (acc + w) :: accumulate_from (acc + w) ws'
  end.

Definition accumulate (ws : list Z) : list Z := accumulate_from 0 ws.

(** [bisect.bisect_right(a, x, lo, hi)]; the loop runs at most [hi - lo]
    times, which is the fuel. An index outside the list cannot be read
    by the loop when [hi <= len(a)]; the default [0] is never used then. *)
Fixpoint bisect_loop (fuel : nat) (a : list Z) (x : float) (lo hi : nat) : nat :=
  match fuel with
  | O => lo
  | S fuel' =>
      if (lo <? hi)%nat then
        let mid := ((lo + hi) / 2)%nat in
        if float_lt_int x (nth mid a 0) then bisect_loop fuel' a x lo mid
        else bisect_loop fuel' a x (mid + 1)%nat hi
      else lo
  end.

Definition bisect (a : list Z) (x : float) (lo hi : nat) : nat :=
  bisect_loop (hi - lo) a x lo hi.

(** [random.choices(population, weights=weights, k=1)[0]], following the
    library: the cumulative weights, the check of their number, the total
    as a float ([cum_weights[-1] + 0.0]) with its two checks, and a
    bisection of the cumulative weights at the float [random() * total],
    up to the last position; [r] is the value [random()] returned. *)
Definition choices {A : Type} (population : list A) (weights : list Z)
    (r : float) : outcome A :=
  let n := length population in
  let cum_weights := accumulate weights in
  if negb (length cum_weights =? n)%nat then Raise ValueError
  else
    last ← getitem cum_weights (-1);
    converted ← float_of_int last;
    let total := (converted + 0)%float in
    if (total <=? 0)%float then Raise ValueError
    else if negb (is_finite total) then Raise ValueError
    else
      let hi := (n - 1)%nat in
      getitem population
        (Z.of_nat (bisect cum_weights (r * total)%float 0 hi)).

(** ** Insertion-ordered dictionaries keyed by integers

    A Python [dict] iterates in insertion order; the players of a game
    are kept in one, and [values()] is read in that order. *)
Module Dict.
Section ops.
Context {V : Type}.

Definition t := list (Z * V).

Definition empty : t := [].

Fixpoint get (k : Z) (d : t) : option V :=
  match d with
  | [] => None
  | (k', v) :: d' => if k' =? k then Some v else get k d'
  end.

(** [d[k] = v]: an existing key keeps its place. *)
Fixpoint set (k : Z) (v : V) (d : t) : t :=
  match d with
  | [] => [(k, v)]
  | (k', v') :: d' =>
      if k' =? k then (k, v) :: d' else (k', v') :: set k v d'
  end.

Definition remove (k : Z) (d : t) : t :=
  List.filter (fun kv => negb (fst kv =? k)) d.

(** [del d[k]] *)
Definition delitem (k : Z) (d : t) : outcome t :=
  match get k d with
  | Some _ => Ok (remove k d)
  | None => Raise (KeyError (KInt k))
  end.

Definition values (d : t) : list V := map snd d.
End ops.
Arguments t : clear implicits.
End Dict.

(** ** Player state, players and games (src/game.py) *)

(** The value of an attribute of a player's state. *)
Inductive value :=
| VInt (n : Z)
| VStr (s : string).

(** Modelled from the spec: the class [PlayerState] is imported by
    [templating.py] and used by [game.py], and is not among the sources.
    The spec describes it as a mapping from named nation attributes (at
    least loyalty, money, security and world_opinion, numeric) to their
    values; [templating.py] also reads [nation_name] and applies
    [attrs.asdict] to it. A state is the list of its fields with their
    values, in the order of declaration. *)
Definition PlayerState := list (string * value).

Fixpoint field_lookup (name : string) (fields : list (string * value))
    : option value :=
  match fields with
  | [] => None
  | (k, v) :: fields' =>
      if String.eqb k name then Some v else field_lookup name fields'
  end.

(** [getattr(state, name)], where [state] is [None] until the player is
    registered. *)
Definition getattr (state : option PlayerState) (name : string)
    : outcome value :=
  match state with
  | None => Raise (AttributeError name)
  | Some fields =>
      match field_lookup name fields with
      | Some v => Ok v
      | None => Raise (AttributeError name)
      end
  end.

(** [v < 0] *)
Definition lt_zero (v : value) : outcome bool :=
  match v with
  | VInt n => Ok (n <? 0)
  | VStr _ => Raise TypeError
  end.

(** [attrs.asdict(state)]: the same fields, as a dictionary. *)
Definition asdict (state : PlayerState) : list (string * value) := state.

(** The part of [interactions.SlashContext] the code reads: the id of the
    user who issued the command, and which interaction it is. *)
Record SlashContext := {
  interaction : Z;
  user_id : Z;
}.

Definition GameID := string.

Module Player.
(** [game] is a reference to the owning game; it is kept as the id of
    that game, and read through the game held by the world. *)
Record t := {
  ctx : SlashContext;
  state : option PlayerState;
  game : GameID;
}.
End Player.

(** [Player(ctx, game)], the constructor of the class that [game.py]
    defines: the state is [None]. *)
Definition Player_init (ctx : SlashContext) (game : GameID) : Player.t :=
  {| Player.ctx := ctx; Player.state := None; Player.game := game |}.

(** Modelled from the spec: [Stage] is imported from a module that is not
    among the sources; the spec declares the stages 1, 2 and 3, and
    [Game.tick] matches on exactly these. [total_stages] is
    [get_args(Stage)]. *)
Definition total_stages : list Z := [1; 2; 3].

Module Game.
Record t := {
  id : GameID;
  players : Dict.t Player.t;
  stage : Z;
  max_time : float;
  cumm_percent_time_per_stage : list float;
  values_to_check : list string;
}.

Definition with_players (ps : Dict.t Player.t) (g : t) : t :=
  {| id := id g; players := ps; stage := stage g; max_time := max_time g;
     cumm_percent_time_per_stage := cumm_percent_time_per_stage g;
     values_to_check := values_to_check g |}.

Definition with_stage (s : Z) (g : t) : t :=
  {| id := id g; players := players g; stage := s; max_time := max_time g;
     cumm_percent_time_per_stage := cumm_percent_time_per_stage g;
     values_to_check := values_to_check g |}.
End Game.

(** [Game(id)]; [sampled] is the value [random.uniform(12.5, 16)]
    returned. The thresholds are the floats the literals 0.25 and 0.6
    denote and the integer 1, which is converted when it is multiplied by
    [max_time]. *)
Definition Game_init (id : GameID) (sampled : float) : Game.t :=
  {| Game.id := id;
     Game.players := Dict.empty;
     Game.stage := 1;
     Game.max_time := sampled;
     Game.cumm_percent_time_per_stage := [0.25; 0.6; 1]%float;
     Game.values_to_check := ["loyalty"; "money"; "security"; "world_opinion"] |}.

(** ** What the code sends and the world it runs in *)

Record Embed := {
  title : string;
  description : string;
  color : Z * Z * Z;
}.

Record Button := {
  label : string;
  custom_id : string;
}.

(** What a run leaves behind, in the order it happened: a message sent
    through a context, or a sleep of so many seconds. *)
Inductive Event :=
| Send (to : SlashContext) (embed : Embed) (action_row : option (list Button))
| Sleep (seconds : float).

(** The game object every player of the session refers to, and the
    events so far. *)
Record World := {
  the_game : Game.t;
  events : list Event;
}.

(** A coroutine (or any code with effects): it reads and writes the
    world; a raised exception keeps the writes made before it. *)
Definition M (A : Type) : Type := World -> outcome A * World.

#[global] Instance M_ret : MRet M := fun A a w => (Ok a, w).
#[global] Instance M_bind : MBind M := fun A B f m w =>
  match m w with
  | (Ok a, w') => f a w'
  | (Raise e, w') => (Raise e, w')
  | (Unmodelled, w') => (Unmodelled, w')
  end.

Definition lift {A : Type} (o : outcome A) : M A := fun w => (o, w).

Definition raise {A : Type} (e : exn) : M A := lift (Raise e).

Definition get_game : M Game.t := fun w => (Ok (the_game w), w).

Definition put_game (g : Game.t) : M unit :=
  fun w => (Ok tt, {| the_game := g; events := events w |}).

Definition emit (e : Event) : M unit :=
  fun w => (Ok tt, {| the_game := the_game w; events := events w ++ [e] |}).

(** [await ctx.send(...)] *)
Definition send_message (to : SlashContext) (embed : Embed)
    (action_row : option (list Button)) : M unit :=
  emit (Send to embed action_row).

(** [await c]: the coroutine runs here. *)
Definition await {A : Type} (c : M A) : M A := c.

(** A call of an [async def] written as a statement, without [await]:
    the coroutine object is created and dropped, its body never runs. *)
Definition not_awaited {A : Type} (c : M A) : M unit := mret tt.

(** [try: body except KeyError: handler] *)
Definition try_except_KeyError {A : Type} (body : M A) (handler : M A) : M A :=
  fun w =>
    match body w with
    | (Raise (KeyError _), w') => handler w'
    | r => r
    end.

(** [try: body except Exception as e: handler(e)] *)
Definition try_except_Exception {A : Type} (body : M A) (handler : exn -> M A)
    : M A :=
  fun w =>
    match body w with
    | (Raise e, w') => if is_Exception e then handler e w' else (Raise e, w')
    | r => r
    end.

(** [for x in xs: body(x)] *)
Fixpoint for_each {A : Type} (xs : list A) (body : A -> M unit) : M unit :=
  match xs with
  | [] => mret tt
  | x :: xs' => _ ← body x; for_each xs' body
  end.

(** ** [str.format] with the state's dictionary as its only argument

    [Template.format] calls [self.text.format(asdict(state))]: one
    positional argument, no keyword argument. The scanner below follows
    the library's: literal text up to a brace, doubled braces as escapes,
    then a replacement field up to its closing brace, a bracket inside a
    field name running to the next closing bracket. Each field is looked
    up and rendered when it closes, so an error of an earlier field comes
    before an error of the text after it. Strings are ASCII text.

    Outside the embedding ([Unmodelled]): a conversion [!r] or a format
    specification [:...], an attribute [.name] or more than one index
    after the argument, an index into anything but the dictionary, an
    argument number above 2^63 - 1, and the [repr] of a string with a
    character that is not printable ASCII. *)

Definition squote : ascii := "'"%char.
Definition dquote : ascii := ascii_of_nat 34.
Definition backslash : ascii := ascii_of_nat 92.

Definition is_digit (c : ascii) : bool :=
  (48 <=? nat_of_ascii c)%nat && (nat_of_ascii c <=? 57)%nat.

Definition is_printable (c : ascii) : bool :=
  (32 <=? nat_of_ascii c)%nat && (nat_of_ascii c <=? 126)%nat.

Fixpoint string_forallb (p : ascii -> bool) (s : string) : bool :=
  match s with
  | EmptyString => true
  | String c s' => p c && string_forallb p s'
  end.

Fixpoint string_existsb (p : ascii -> bool) (s : string) : bool :=
  match s with
  | EmptyString => false
  | String c s' => p c || string_existsb p s'
  end.

Fixpoint digits_value (acc : Z) (s : string) : Z :=
  match s with
  | EmptyString => acc
  | String c s' => digits_value (10 * acc + (Z.of_nat (nat_of_ascii c) - 48)) s'
  end.

(** Whether a name is a number: not empty and made of digits. *)
Definition is_number (s : string) : bool :=
  negb (String.eqb s "") && string_forallb is_digit s.

(** [repr(s)] for a string of printable ASCII characters: single quotes,
    unless the string has a single quote and no double quote. *)
Fixpoint escape (quote : ascii) (s : string) : string :=
  match s with
  | EmptyString => EmptyString
  | String c s' =>
      if Ascii.eqb c backslash || Ascii.eqb c quote
      then String backslash (String c (escape quote s'))
      else String c (escape quote s')
  end.

Definition repr_str (s : string) : outcome string :=
  if string_forallb is_printable s then
    let quote :=
      if string_existsb (Ascii.eqb squote) s
         && negb (string_existsb (Ascii.eqb dquote) s)
      then dquote else squote in
    Ok (String quote (escape quote s +:+ String quote EmptyString))
  else Unmodelled.

Definition repr_value (v : value) : outcome string :=
  match v with
  | VInt n => Ok (str_of_int n)
  | VStr s => repr_str s
  end.

(** [str(v)], which is also [format(v, '')]. *)
Definition str_value (v : value) : string :=
  match v with
  | VInt n => str_of_int n
  | VStr s => s
  end.

Fixpoint repr_items (d : list (string * value)) : outcome string :=
  match d with
  | [] => Ok ""
  | (k, v) :: d' =>
      rk ← repr_str k;
      rv ← repr_value v;
      rest ← repr_items d';
      Ok (rk +:+ ": " +:+ rv +:+
          match d' with [] => "" | _ => ", " +:+ rest end)
  end.

(** [str(d)] for the dictionary. *)
Definition str_dict (d : list (string * value)) : outcome string :=
  items ← repr_items d;
  Ok ("{" +:+ items +:+ "}").

(** The state of automatic field numbering. *)
Inductive AutoNumber :=
| ANS_INIT
| ANS_AUTO (field_number : Z)
| ANS_MANUAL.

(** A field name is split at its first [.] or [[]. *)
Fixpoint field_name_split (name : string) : string * string :=
  match name with
  | EmptyString => (EmptyString, EmptyString)
  | String c name' =>
      if Ascii.eqb c "." || Ascii.eqb c "["
      then (EmptyString, name)
      else let '(first, rest) := field_name_split name' in
           (String c first, rest)
  end.

(** The text of a single index [[key]] and nothing else, if [rest] is
    one. *)
Fixpoint until_bracket (s : string) : option (string * string) :=
  match s with
  | EmptyString => None
  | String c s' =>
      if Ascii.eqb c "]" then Some (EmptyString, s')
      else match until_bracket s' with
           | Some (key, after) => Some (String c key, after)
           | None => None
           end
  end.

Definition single_index (rest : string) : option string :=
  match rest with
  | String "[" s =>
      match until_bracket s with
      | Some (String c key, EmptyString) => Some (String c key)
      | _ => None
      end
  | _ => None
  end.

(** The argument a field names: where it leaves the numbering, and the
    position among the positional arguments, or the keyword. *)
Definition get_argument (first : string) (an : AutoNumber)
    : outcome (AutoNumber * (Z + string)) :=
  if String.eqb first "" then
    match an with
    | ANS_INIT => Ok (ANS_AUTO 1, inl 0)
    | ANS_AUTO n => Ok (ANS_AUTO (n + 1), inl n)
    | ANS_MANUAL => Raise ValueError
    end
  else if is_number first then
    let idx := digits_value 0 first in
    if 2 ^ 63 - 1 <? idx then Unmodelled
    else match an with
         | ANS_INIT | ANS_MANUAL => Ok (ANS_MANUAL, inl idx)
         | ANS_AUTO _ => Raise ValueError
         end
  else Ok (an, inr first).

(** The text a field is replaced with: [d] is the only positional
    argument and there is no keyword argument. An index made of digits
    is read as an integer, which raises when it is beyond the
    [Py_ssize_t] of a 64-bit build, and is otherwise a key the
    dictionary does not have. *)
Definition render_field (d : list (string * value)) (name : string)
    (an : AutoNumber) : outcome (AutoNumber * string) :=
  let '(first, rest) := field_name_split name in
  '(an', arg) ← get_argument first an;
  match arg with
  | inr keyword => Raise (KeyError (KStr keyword))
  | inl idx =>
      if negb (idx =? 0) then Raise IndexError
      else if String.eqb rest "" then
        text ← str_dict d; Ok (an', text)
      else
        match single_index rest with
        | None => Unmodelled
        | Some key =>
            if is_number key
            then if 2 ^ 63 - 1 <? digits_value 0 key then Raise ValueError
                 else Raise (KeyError (KInt (digits_value 0 key)))
            else match field_lookup key d with
                 | Some v => Ok (an', str_value v)
                 | None => Raise (KeyError (KStr key))
                 end
        end
  end.

Inductive ScanMode :=
| InText
| InField (name : string)
| InBracket (name : string).

Definition snoc (s : string) (c : ascii) : string :=
  s +:+ String c EmptyString.

Fixpoint scan_format (d : list (string * value)) (s : string) (mode : ScanMode)
    (an : AutoNumber) (out : string) : outcome string :=
  match s with
  | EmptyString =>
      match mode with
      | InText => Ok out
      | _ => Raise ValueError
      end
  | String c rest =>
      match mode with
      | InText =>
          if Ascii.eqb c "{" then
            match rest with
            | EmptyString => Raise ValueError
            | String c' rest' =>
                if Ascii.eqb c' "{" then scan_format d rest' InText an (snoc out c)
                else scan_format d rest (InField "") an out
            end
          else if Ascii.eqb c "}" then
            match rest with
            | EmptyString => Raise ValueError
            | String c' rest' =>
                if Ascii.eqb c' "}" then scan_format d rest' InText an (snoc out c)
                else Raise ValueError
            end
          else scan_format d rest InText an (snoc out c)
      | InField name =>
          if Ascii.eqb c "{" then Raise ValueError
          else if Ascii.eqb c "[" then scan_format d rest (InBracket (snoc name c)) an out
          else if Ascii.eqb c "!" || Ascii.eqb c ":" then Unmodelled
          else if Ascii.eqb c "}" then
            match render_field d name an with
            | Ok (an', text) => scan_format d rest InText an' (out +:+ text)
            | Raise e => Raise e
            | Unmodelled => Unmodelled
            end
          else scan_format d rest (InField (snoc name c)) an out
      | InBracket name =>
          if Ascii.eqb c "]" then scan_format d rest (InField (snoc name c)) an out
          else scan_format d rest (InBracket (snoc name c)) an out
      end
  end.

(** [text.format(d)] *)
Definition str_format (text : string) (d : list (string * value))
    : outcome string :=
  scan_format d text InText ANS_INIT "".

(** ** Templates, stage groups and actors (src/templating.py) *)

(** [Consequence = dict[Any, Any]]: what a choice does, kept as data. *)
Definition Consequence := list (string * value).

(** [Condition]: a callable on the player's state; it may raise. *)
Definition Condition := option PlayerState -> outcome bool.

Module Template.
(** [Template] and its subclass [ChoiceTemplate]; both are frozen. *)
Inductive t :=
| Plain (text : string) (weight : Z)
| Choice (text : string) (weight : Z)
    (choices : list (string * Consequence)) (condition : option Condition).

Definition text (tpl : t) : string :=
  match tpl with
  | Plain text _ | Choice text _ _ _ => text
  end.

Definition weight (tpl : t) : Z :=
  match tpl with
  | Plain _ weight | Choice _ weight _ _ => weight
  end.
End Template.

(** [Template(text)] with the default weight. *)
Definition Template_init (text : string) : Template.t := Template.Plain text 100.

(** [ChoiceTemplate(text, weight, choices, condition)]: the converter
    [not_none] of [choices] raises on [None]. *)
Definition not_none {A : Type} (var : option A) : outcome A :=
  match var with
  | None => Raise (AttributeError "")
  | Some v => Ok v
  end.

Definition ChoiceTemplate_init (text : string) (weight : Z)
    (choices : option (list (string * Consequence)))
    (condition : option Condition) : outcome Template.t :=
  cs ← not_none choices;
  Ok (Template.Choice text weight cs condition).

(** [Template.format] *)
Definition Template_format (self : Template.t) (state : PlayerState)
    : outcome string :=
  str_format (Template.text self) (asdict state).

(** [ChoiceTemplate.is_available] *)
Definition ChoiceTemplate_is_available (condition : option Condition)
    (player : Player.t) : outcome bool :=
  match condition with
  | Some cond => cond (Player.state player)
  | None => Ok true
  end.

Module StageGroup.
(** The field [stage] after its converter: one stage, or a tuple. *)
Inductive stage_field :=
| One (s : Z)
| Several (ss : list Z).

Record t := {
  stage : stage_field;
  templates : list Template.t;
}.
End StageGroup.

(** What a stage group is built from: a stage, a tuple of stages, or the
    string "all". *)
Inductive stage_arg :=
| AStage (s : Z)
| ATuple (ss : list Z)
| AAll.

(** The converter of [StageGroup.stage]:
    [total_stages if stage == "all" else stage]. *)
Definition stage_converter (a : stage_arg) : StageGroup.stage_field :=
  match a with
  | AAll => StageGroup.Several total_stages
  | AStage s => StageGroup.One s
  | ATuple ss => StageGroup.Several ss
  end.

(** [StageGroup(stage, templates)] *)
Definition StageGroup_init (stage : stage_arg) (templates : list Template.t)
    : StageGroup.t :=
  {| StageGroup.stage := stage_converter stage;
     StageGroup.templates := templates |}.

Module StageData.
Record t := {
  templates : list Template.t;
  weights : list Z;
}.
End StageData.

(** [StageData(templates)] *)
Definition StageData_init (templates : list Template.t) : StageData.t :=
  {| StageData.templates := templates;
     StageData.weights := List.map Template.weight templates |}.

(** [StageData.get_random]; [r] is the value [random()] returned inside
    [random.choices]. *)
Definition StageData_get_random (self : StageData.t) (r : float)
    : outcome Template.t :=
  choices (StageData.templates self) (StageData.weights self) r.

Module Actor.
Record t := {
  name : string;
  picture : string;
  stages : gmap Z StageData.t;
}.
End Actor.

(** Whether [cast_stages] keeps a group for a stage: the two [continue]
    of its inner loop are the two [false]. *)
Definition group_matches (stage : Z) (stage_group : StageGroup.t) : bool :=
  match StageGroup.stage stage_group with
  | StageGroup.One template_stage => template_stage =? stage
  | StageGroup.Several template_stage => existsb (Z.eqb stage) template_stage
  end.

(** The inner loop of [cast_stages]: [stage_templates] grows by the
    templates of each group that is kept. *)
Fixpoint collect_templates (stage : Z) (stage_groups : list StageGroup.t)
    (stage_templates : list Template.t) : list Template.t :=
  match stage_groups with
  | [] => stage_templates
  | stage_group :: rest =>
      if group_matches stage stage_group
      then collect_templates stage rest
             (stage_templates ++ StageGroup.templates stage_group)
      else collect_templates stage rest stage_templates
  end.

(** The outer loop of [cast_stages], over the stages still to do. *)
Fixpoint cast_stages_loop (todo : list Z) (stage_groups : list StageGroup.t)
    (stages : gmap Z StageData.t) : gmap Z StageData.t :=
  match todo with
  | [] => stages
  | stage :: todo' =>
      cast_stages_loop todo' stage_groups
        (<[stage := StageData_init (collect_templates stage stage_groups [])]>
           stages)
  end.

(** [Actor.cast_stages] *)
Definition Actor_cast_stages (stage_groups : list StageGroup.t)
    : gmap Z StageData.t :=
  cast_stages_loop total_stages stage_groups ∅.

(** [Actor(name, picture, templates)] *)
Definition Actor_init (name picture : string) (templates : list StageGroup.t)
    : Actor.t :=
  {| Actor.name := name;
     Actor.picture := picture;
     Actor.stages := Actor_cast_stages templates |}.

(** [d[k]] for the dictionary of an actor's stages. *)
Definition stages_getitem (stages : gmap Z StageData.t) (k : Z)
    : outcome StageData.t :=
  match stages !! k with
  | Some data => Ok data
  | None => Raise (KeyError (KInt k))
  end.

(** [Template.to_embed]: the title is built first, then the description. *)
Definition Template_to_embed (self : Template.t) (player : Player.t)
    (actor : Actor.t) : outcome Embed :=
  match Player.state player with
  | None => Raise (AttributeError "nation_name")
  | Some state =>
      nation_name ← getattr (Some state) "nation_name";
      description ← Template_format self state;
      Ok {| title := Actor.name actor +:+ " of " +:+ str_value nation_name;
            description := description;
            color := (0, 0, 255) |}
  end.

(** The loop of [ChoiceTemplate.ui] that builds the buttons: [choice] is
    a pair (label, consequence), and a tuple has no [keys], so the first
    turn of the loop raises. *)
Definition choice_buttons (items : list (string * Consequence))
    : outcome (list Button) :=
  match items with
  | [] => Ok []
  | choice :: _ => Raise (AttributeError "keys")
  end.

(** [Template.ui] and its override [ChoiceTemplate.ui] *)
Definition Template_ui (self : Template.t) (player : Player.t) (actor : Actor.t)
    : M unit :=
  match self with
  | Template.Plain _ _ =>
      embed ← lift (Template_to_embed self player actor);
      await (send_message (Player.ctx player) embed None)
  | Template.Choice _ _ choices _ =>
      buttons ← lift (choice_buttons choices);
      embed ← lift (Template_to_embed self player actor);
      await (send_message (Player.ctx player) embed (Some buttons))
  end.

(** The first two lines of [Actor.send]: the pool of the target's game
    stage, and a template drawn from it. *)
Definition Actor_select (self : Actor.t) (stage : Z) (r : float)
    : outcome Template.t :=
  data ← stages_getitem (Actor.stages self) stage;
  StageData_get_random data r.

(** [Actor.send]; [target.game] is the game of the world. *)
Definition Actor_send (self : Actor.t) (target : Player.t) (r : float) : M unit :=
  game ← get_game;
  template ← lift (Actor_select self (Game.stage game) r);
  await (Template_ui template target self).

(** ** The game session and its scheduler (src/game.py) *)

(** [random.uniform(a, b)] is [a + (b - a) * random()]; [u] is the
    value [random()] returned. The bounds the code gives are integers
    and floats that binary64 holds exactly, as it holds their
    differences. *)
Definition uniform (a b u : float) : float := (a + (b - a) * u)%float.

(** What one tick draws at random: the character that
    [all_characters.get_random] returns, the [random()] of the sleep
    time, and the [random()] of the template choice. The registry
    [all_characters] is imported from a module that is not among the
    sources. *)
Record Draws := {
  character : Actor.t;
  sleep_draw : float;
  choice_draw : float;
}.

(** What one turn of the loop observes: the minutes since the start, and
    the draws of each player's tick. *)
Record Observation := {
  game_time : float;
  draws : Z -> Draws;
}.

(** [any(getattr(state, attr) < 0 for attr in values_to_check)] *)
Fixpoint any_negative (state : option PlayerState) (attrs : list string)
    : outcome bool :=
  match attrs with
  | [] => Ok false
  | attr :: attrs' =>
      v ← getattr state attr;
      negative ← lt_zero v;
      if negative : bool then Ok true else any_negative state attrs'
  end.

(** The [match self.stage] of [tick]: no case binds [sleep_time] for a
    stage other than 1, 2 and 3, and reading it then raises. *)
Definition sleep_time (stage : Z) (u : float) : outcome float :=
  if stage =? 1 then Ok (10 + uniform (-2) 2 u)%float
  else if stage =? 2 then Ok (8 + uniform (-2) 1.5 u)%float
  else if stage =? 3 then Ok (6 + uniform (-1) 0.75 u)%float
  else Raise (UnboundLocalError "sleep_time").

(** [await asyncio.sleep(t)] *)
Definition asyncio_sleep (t : float) : M unit := emit (Sleep t).

(** What [asyncio.gather(..., return_exceptions=True)] does with one of
    its coroutines: an exception is a result like any other. *)
Definition capture {A : Type} (c : M A) : M (outcome A) :=
  fun w =>
    match c w with
    | (Ok a, w') => (Ok (Ok a), w')
    | (Raise e, w') =>
        if is_Exception e then (Ok (Raise e), w') else (Raise e, w')
    | (Unmodelled, w') => (Unmodelled, w')
    end.

(** [player.register()] on a player that [add_player] has just made.
    [game.py] imports a class [Player] and then defines a class of the
    same name, so [Player(ctx, self)] makes an instance of the class
    defined there; that class has the constructor only, and looking
    [register] up on its instance raises. *)
Definition Player_register (self : Player.t) : M unit :=
  raise (AttributeError "register").

Section scheduler.

(** The embed [death_player] builds: [system_message_embed] comes from
    [src.const], not among the sources, and its description reads
    attributes of the dead player. *)
Variable death_embed : Player.t -> outcome Embed.

(** The embed the loop builds from an exception with [error_embed],
    also from [src.const]. *)
Variable error_embed : exn -> Embed.

(** [Game.add_player] *)
Definition Game_add_player (ctx : SlashContext) : M unit :=
  self ← get_game;
  let player := Player_init ctx (Game.id self) in
  _ ← await (Player_register player);
  self ← get_game;
  put_game
    (Game.with_players (Dict.set (user_id ctx) player (Game.players self)) self).

(** [Game.remove_player] *)
Definition Game_remove_player (ctx : SlashContext) : M unit :=
  let player_to_delete := user_id ctx in
  try_except_KeyError
    (self ← get_game;
     players ← lift (Dict.delitem player_to_delete (Game.players self));
     put_game (Game.with_players players self))
    (raise NotImplementedError).

(** [Game.death_player]: the last line calls [remove_player] and does
    not await it. *)
Definition Game_death_player (dead_player : Player.t) : M unit :=
  embed ← lift (death_embed dead_player);
  self ← get_game;
  _ ← for_each (Dict.values (Game.players self))
        (fun player => await (send_message (Player.ctx player) embed None));
  not_awaited (Game_remove_player (Player.ctx dead_player)).

(** [Game.tick]: the character is drawn first; [death_player] is called
    and not awaited; nothing returns before the sleep and the send. *)
Definition Game_tick (player : Player.t) (d : Draws) : M unit :=
  let character := character d in
  self ← get_game;
  lost ← lift (any_negative (Player.state player) (Game.values_to_check self));
  _ ← (if lost : bool then not_awaited (Game_death_player player)
       else mret tt);
  self ← get_game;
  sleep_time ← lift (sleep_time (Game.stage self) (sleep_draw d));
  _ ← await (asyncio_sleep sleep_time);
  await (Actor_send character player (choice_draw d)).

(** The test and the assignment at the top of the loop's body. *)
Definition advance_stage (game_time : float) : M unit :=
  self ← get_game;
  threshold ← lift (getitem (Game.cumm_percent_time_per_stage self)
                            (Game.stage self - 1));
  if (threshold * Game.max_time self <? game_time)%float
     && (game_time <? Game.max_time self)%float
  then
    i ← lift (index total_stages (Game.stage self));
    next ← lift (getitem total_stages (i + 1));
    put_game (Game.with_stage next self)
  else mret tt.

(** [asyncio.gather] with [return_exceptions=True], over the ticks of
    the players of the dictionary. The ticks are run one after the other, in
    the order of the dictionary: a tick writes nothing that another
    tick or the loop reads, so how they interleave at their [await]
    changes only the order of the events of different players. *)
Fixpoint gather_ticks (players : list Player.t) (draws : Z -> Draws)
    : M (list (outcome unit)) :=
  match players with
  | [] => mret []
  | player :: players' =>
      r ← capture (Game_tick player (draws (user_id (Player.ctx player))));
      rs ← gather_ticks players' draws;
      mret (r :: rs)
  end.

(** One turn of the [while True] of [Game.loop]. *)
Definition loop_iteration (o : Observation) : M unit :=
  _ ← advance_stage (game_time o);
  self ← get_game;
  try_except_Exception
    (_ ← await (gather_ticks (Dict.values (Game.players self)) (draws o));
     mret tt)
    (fun e =>
       self ← get_game;
       for_each (Dict.values (Game.players self))
         (fun player =>
            await (send_message (Player.ctx player) (error_embed e) None))).

(** [Game.loop], for the turns whose observations are given: the loop
    itself has no exit. *)
Fixpoint Game_loop (observations : list Observation) : M unit :=
  match observations with
  | [] => mret tt
  | o :: rest => _ ← loop_iteration o; Game_loop rest
  end.

End scheduler.

(** ** Reading the token (main.py) *)

Inductive Level := ERROR | INFO.

Record LogRecord := {
  level : Level;
  message : string;
}.

Definition newline : string := String (ascii_of_nat 10) EmptyString.

Definition token_not_found : string :=
  "Token not found." +:+ newline +:+
  "Please specify discord bot token via environment variable 'DEFCON_BOT_TOKEN'.".

(** [get_token]. [dotenv] is [None] when importing [dotenv] fails, and
    otherwise the variables of the [.env] file, which [load_dotenv] adds
    to the environment without replacing a variable already set. The
    result comes with the records logged. *)
Definition get_token (dotenv : option (gmap string string))
    (environ : gmap string string) : outcome string * list LogRecord :=
  let '(environ, no_dotenv) :=
    match dotenv with
    | Some file => (environ ∪ file, false)
    | None => (environ, true)
    end in
  let token := environ !! "DEFCON_BOT_TOKEN" in
  match token with
  | None =>
      (Raise (SystemExit None),
       {| level := ERROR; message := token_not_found |}
       :: (if no_dotenv : bool
           then [{| level := INFO;
                    message := "To read token from .env, install 'python-dotenv'" |}]
           else []))
  | Some token => (Ok token, [])
  end.

(** The exit status of the interpreter when an exception ends it:
    [SystemExit] with no argument, which is what [exit()] raises, is a
    status of zero. *)
Definition exit_status (e : exn) : Z :=
  match e with
  | SystemExit None => 0
  | SystemExit (Some code) => code
  | _ => 1
  end.

(** Whether [needle] occurs in [s]. *)
Fixpoint occurs_in (needle s : string) : bool :=
  String.prefix needle s
  || match s with
     | EmptyString => false
     | String _ s' => occurs_in needle s'
     end.

(** ** The developer mode and the entry point (main.py) *)

(** [get_developer_mode]: [argv[1] == "--dev"], and [False] when
    [argv] has no second element. *)
Definition get_developer_mode (argv : list string) : outcome bool :=
  match getitem argv 1 with
  | Ok arg => Ok (String.eqb arg "--dev")
  | Raise IndexError => Ok false
  | Raise e => Raise e
  | Unmodelled => Unmodelled
  end.

(** The calls made on the bot: they belong to the [interactions]
    library, and are taken to return. *)
Inductive BotCall :=
| load_extension (name : string)
| start (token : string).

(** The module run as a script: [DEV] is computed when the module is
    loaded, the extensions are loaded, and the argument of [bot.start]
    is evaluated before the call. The result comes with the calls made
    on the bot and the records logged. *)
Definition main (argv : list string) (dotenv : option (gmap string string))
    (environ : gmap string string)
    : outcome unit * list BotCall * list LogRecord :=
  match get_developer_mode argv with
  | Ok DEV =>
      let calls :=
        (if DEV : bool then [load_extension "interactions.ext.jurigged"] else [])
        ++ [load_extension "src.game_start"] in
      match get_token dotenv environ with
      | (Ok token, records) => (Ok tt, calls ++ [start token], records)
      | (Raise e, records) => (Raise e, calls, records)
      | (Unmodelled, records) => (Unmodelled, calls, records)
      end
  | Raise e => (Raise e, [], [])
  | Unmodelled => (Unmodelled, [], [])
  end.

(** ** Loading the characters (src/templating.py) *)

Fixpoint string_rev (s : string) : string :=
  match s with
  | EmptyString => EmptyString
  | String c s' => string_rev s' +:+ String c EmptyString
  end.

(** [s.lstrip(chars)], [s.rstrip(chars)] and [s.strip(chars)]: the
    characters of [chars] are taken off the ends, in any order and
    number. *)
Fixpoint lstrip (chars : string) (s : string) : string :=
  match s with
  | EmptyString => EmptyString
  | String c s' =>
      if string_existsb (Ascii.eqb c) chars then lstrip chars s' else s
  end.

Definition rstrip (chars : string) (s : string) : string :=
  string_rev (lstrip chars (string_rev s)).

Definition strip (chars : string) (s : string) : string :=
  rstrip chars (lstrip chars s).

Module Path.
(** A path found by [rglob]: the directory it is in and its last
    component, which is [path.name]. *)
Record t := {
  parent : string;
  name : string;
}.
End Path.

(** [str(path)] *)
Definition str_path (path : Path.t) : string :=
  Path.parent path +:+ "/" +:+ Path.name path.

(** The name [get_characters] gives to the module of a file. *)
Definition module_name (path : Path.t) : string :=
  strip ".py" (Path.name path).

Definition import_failed (path : Path.t) : LogRecord :=
  {| level := ERROR;
     message := "Exception raised when trying to import characters. current_path "
                +:+ str_path path |}.

Section loader.

(** What the body of the [try] yields for a module name and a file: the
    three calls of [importlib] and [getattr(module, "character", None)]
    give the attribute when it is there and true ([Some]), nothing when
    it is missing or false ([None]), or the exception that one of them
    raised. *)
Variable import_character : string -> string -> outcome (option Actor.t).

(** The loop of [get_characters], over the paths [rglob] yields. *)
Fixpoint get_characters_loop (paths : list Path.t) (characters : list Actor.t)
    (records : list LogRecord) : outcome (list Actor.t) * list LogRecord :=
  match paths with
  | [] => (Ok characters, records)
  | path :: paths' =>
      match import_character (module_name path) (str_path path) with
      | Ok (Some character) =>
          get_characters_loop paths' (characters ++ [character]) records
      | Ok None => get_characters_loop paths' characters records
      | Raise e =>
          if is_Exception e
          then get_characters_loop paths' characters
                 (records ++ [import_failed path])
          else (Raise e, records)
      | Unmodelled => (Unmodelled, records)
      end
  end.

(** [get_characters] *)
Definition get_characters (paths : list Path.t)
    : outcome (list Actor.t) * list LogRecord :=
  get_characters_loop paths [] [].

End loader.

(** ** Predicates used by the statements *)

(** The thresholds are the ones [Game.__init__] sets. *)
Definition initial_thresholds (g : Game.t) : Prop :=
  Game.cumm_percent_time_per_stage g = [0.25; 0.6; 1]%float.

(** The stage is one of the declared stages. *)
Definition declared_stage (s : Z) : Prop := In s total_stages.

(** The invariant of the loop: the thresholds are the initial ones and
    the stage is a declared one. *)
Definition stage_invariant (g : Game.t) : Prop :=
  initial_thresholds g /\ declared_stage (Game.stage g).

(** The cumulative threshold of the current stage. *)
Definition current_threshold (g : Game.t) : float :=
  nth (Z.to_nat (Game.stage g - 1)) (Game.cumm_percent_time_per_stage g) 0%float.

(** The elapsed time exceeds the current stage's threshold times the
    total duration, and is below the total duration: the two comparisons
    of binary64 values, the product being the rounded one. *)
Definition past_threshold (g : Game.t) (elapsed : float) : Prop :=
  (current_threshold g * Game.max_time g <? elapsed)%float = true
  /\ (elapsed <? Game.max_time g)%float = true.

(** The stage set of a stage group, as the group was written, contains
    the stage; "all" stands for every declared stage. *)
Definition stage_set_contains (a : stage_arg) (s : Z) : bool :=
  match a with
  | AStage x => x =? s
  | ATuple xs => existsb (Z.eqb s) xs
  | AAll => existsb (Z.eqb s) total_stages
  end.


(** A character that is not a brace. *)
Definition not_brace (c : ascii) : bool :=
  negb (Ascii.eqb c "{" || Ascii.eqb c "}").


(** An event that is a sleep, or a message sent through the context
    [c]. *)
Definition sleep_or_sent_to (c : SlashContext) (e : Event) : Prop :=
  match e with
  | Send to _ _ => to = c
  | Sleep _ => True
  end.

(** A computation that adds only such events. *)
Definition speaks_only_to {A : Type} (c : SlashContext) (m : M A) : Prop :=
  forall w, exists new,
    events (snd (m w)) = events w ++ new /\ Forall (sleep_or_sent_to c) new.

(** The game of the world after a computation, and its outcome. *)
Definition game_after {A : Type} (m : M A) (w : World) : Game.t :=
  the_game (snd (m w)).

Definition events_after {A : Type} (m : M A) (w : World) : list Event :=
  events (snd (m w)).

(** A computation that leaves the game as it found it. *)
Definition keeps_game {A : Type} (m : M A) : Prop :=
  forall w, the_game (snd (m w)) = the_game w.

(** An outcome that is not [SystemExit]; a computation whose exceptions
    are all of class [Exception]. *)
Definition no_exit {A : Type} (o : outcome A) : Prop :=
  match o with
  | Raise e => is_Exception e = true
  | _ => True
  end.

Definition never_exits {A : Type} (m : M A) : Prop :=
  forall w, no_exit (fst (m w)).

(** ** Example data *)

Definition atlantis : PlayerState :=
  [("nation_name", VStr "Atlantis"); ("loyalty", VInt 50); ("money", VInt 20);
   ("security", VInt 7); ("world_opinion", VInt 0)].

Definition ruined : PlayerState :=
  [("nation_name", VStr "Ruritania"); ("loyalty", VInt (-5)); ("money", VInt 20);
   ("security", VInt 7); ("world_opinion", VInt 0)].

Definition ctx_of (interaction user : Z) : SlashContext :=
  {| interaction := interaction; user_id := user |}.

Definition no_death_embed (p : Player.t) : outcome Embed :=
  Ok {| title := "We have lost a national leader in the turmoil";
        description := "";
        color := (0, 0, 0) |}.

Definition plain_error_embed (e : exn) : Embed :=
  {| title := "Some error has occured"; description := ""; color := (0, 0, 0) |}.

(** A game with two players; the first one has a negative loyalty. *)
Definition two_players : Dict.t Player.t :=
  [(1, {| Player.ctx := ctx_of 10 1; Player.state := Some ruined;
          Player.game := "g" |});
   (2, {| Player.ctx := ctx_of 20 2; Player.state := Some atlantis;
          Player.game := "g" |})].

Definition game_of_two : Game.t :=
  Game.with_players two_players (Game_init "g" 14).

Definition world_of_two : World :=
  {| the_game := game_of_two; events := [] |}.

(** An actor with one plain template for every stage, and one with a
    template for stage 1 only. *)
Definition herald : Actor.t :=
  Actor_init "Herald" "herald.png"
    [StageGroup_init AAll [Template_init "The harvest was good."]].

Definition early_herald : Actor.t :=
  Actor_init "Herald" "herald.png"
    [StageGroup_init (AStage 1) [Template_init "The harvest was good."]].

Definition herald_draws : Draws :=
  {| character := herald; sleep_draw := 0.5; choice_draw := 0 |}.

(** What the loop observes at a given time, every tick drawing the
    herald. *)
Definition observe (minutes : float) : Observation :=
  {| game_time := minutes; draws := fun _ => herald_draws |}.

(** ** More predicates and example data *)

(** The largest value [random()] returns: it returns a multiple of 2^-53
    that is below 1, and this one is 1 - 2^-53. *)
Definition largest_random : float := 0x1.fffffffffffffp-1.

(** The sum of a list of weights. *)
Definition sum_weights (ws : list Z) : Z := fold_right Z.add 0 ws.

(** A list of numbers that never decreases. *)
Definition non_decreasing (a : list Z) : Prop :=
  forall i j, (i <= j < length a)%nat -> nth i a 0 <= nth j a 0.

(** The attribute is a number of the state that is not negative, or
    that is negative. *)
Definition attribute_not_negative (state : PlayerState) (attr : string) : Prop :=
  exists n, field_lookup attr state = Some (VInt n) /\ 0 <= n.

Definition attribute_negative (state : PlayerState) (attr : string) : Prop :=
  exists n, field_lookup attr state = Some (VInt n) /\ n < 0.

(** A result that [gather] hands back is a value or an exception of
    class [Exception]. *)
Definition gathered {A : Type} (r : outcome A) : Prop :=
  match r with
  | Ok _ => True
  | Raise e => is_Exception e = true
  | Unmodelled => False
  end.

(** The message a template of text [text] makes for a player of the
    nation [nation], drawn from the actor [actor]. *)
Definition delivery (actor : Actor.t) (player : Player.t) (nation : value)
    (text : string) : Event :=
  Send (Player.ctx player)
    {| title := Actor.name actor +:+ " of " +:+ str_value nation;
       description := text;
       color := (0, 0, 255) |}
    None.

(** The string is empty or begins with a character that is not one of
    [chars]. *)
Definition starts_clean (chars : string) (s : string) : bool :=
  match s with
  | EmptyString => true
  | String c _ => negb (string_existsb (Ascii.eqb c) chars)
  end.

(** The characters of the files whose import gives one, and the records
    of the files whose import raises, in the order of the paths. *)
Definition characters_found
    (import_character : string -> string -> outcome (option Actor.t))
    (paths : list Path.t) : list Actor.t :=
  flat_map
    (fun path =>
       match import_character (module_name path) (str_path path) with
       | Ok (Some character) => [character]
       | _ => []
       end)
    paths.

Definition failures_logged
    (import_character : string -> string -> outcome (option Actor.t))
    (paths : list Path.t) : list LogRecord :=
  flat_map
    (fun path =>
       match import_character (module_name path) (str_path path) with
       | Raise _ => [import_failed path]
       | _ => []
       end)
    paths.

(** The characters of a directory listing: what each file gives. *)
Definition sample_import (name path : string) : outcome (option Actor.t) :=
  if String.eqb name "herald" then Ok (Some herald)
  else if String.eqb name "broken" then Raise ValueError
  else Ok None.

Definition sample_paths : list Path.t :=
  [{| Path.parent := "src/resources/characters"; Path.name := "herald.py" |};
   {| Path.parent := "src/resources/characters"; Path.name := "broken.py" |};
   {| Path.parent := "src/resources/characters"; Path.name := "notes.py" |}].

(** * Properties *)

(** Unfolding the plumbing of [M]. *)
Ltac unfold_M :=
  unfold mbind, M_bind, mret, M_ret, lift, raise, get_game, put_game, emit,
    await, not_awaited, send_message, asyncio_sleep in *.

(** ** Dictionaries *)

Lemma Dict_get_remove_eq {V : Type} (k : Z) (d : Dict.t V) :
  Dict.get k (Dict.remove k d) = None.
Proof.
  unfold Dict.remove.
  induction d as [|[k' v'] d IH]; simpl; [reflexivity|].
  destruct (k' =? k) eqn:E; simpl; [exact IH|].
  now rewrite E.
Qed.

Lemma Dict_get_remove_ne {V : Type} (k k' : Z) (d : Dict.t V) :
  k <> k' -> Dict.get k' (Dict.remove k d) = Dict.get k' d.
Proof.
  intros Hne. unfold Dict.remove.
  induction d as [|[k0 v0] d IH]; simpl; [reflexivity|].
  destruct (k0 =? k) eqn:E; simpl.
  - apply Z.eqb_eq in E; subst k0.
    destruct (k =? k') eqn:E'; [apply Z.eqb_eq in E'; contradiction | exact IH].
  - now rewrite IH.
Qed.

(** ** Leaving and joining *)

(** C8. [remove_player] on an identity that is not in the player map
    raises [NotImplementedError] (the exception the code puts in place of
    the [KeyError], the spec's NotFoundError) and leaves the world,
    hence the map, as it was; on an identity that is in the map it
    returns and the map is the old one without that identity: the
    identity is no longer found, every other one is found as before. *)
Theorem remove_player_absent_or_present (ctx : SlashContext) (w : World) :
  let players := Game.players (the_game w) in
  let uid := user_id ctx in
  Game_remove_player ctx w =
    match Dict.get uid players with
    | None => (Raise NotImplementedError, w)
    | Some _ =>
        (Ok tt,
         {| the_game := Game.with_players (Dict.remove uid players) (the_game w);
            events := events w |})
    end
  /\ Dict.get uid (Dict.remove uid players) = None
  /\ (forall k, k <> uid ->
        Dict.get k (Dict.remove uid players) = Dict.get k players).
Proof.
  intros players uid. split; [|split].
  - unfold Game_remove_player, try_except_KeyError, Dict.delitem.
    unfold_M. fold uid players.
    destruct (Dict.get uid players); simpl; [reflexivity|].
    now destruct w.
  - apply Dict_get_remove_eq.
  - intros k Hk. apply Dict_get_remove_ne. congruence.
Qed.

(** C8 on the game of two players: user 3 is not in it, user 1 is. *)
Lemma remove_player_absent_or_present_witness :
  Game_remove_player (ctx_of 30 3) world_of_two
  = (Raise NotImplementedError, world_of_two)
  /\ fst (Game_remove_player (ctx_of 10 1) world_of_two) = Ok tt
  /\ Dict.get 2 (Dict.remove 1 two_players) = Dict.get 2 two_players.
Proof.
  destruct (remove_player_absent_or_present (ctx_of 30 3) world_of_two)
    as [Habsent _].
  destruct (remove_player_absent_or_present (ctx_of 10 1) world_of_two)
    as [Hpresent [_ Hother]].
  split; [exact Habsent|]. split.
  - rewrite Hpresent. reflexivity.
  - apply (Hother 2). discriminate.
Defined.

(** C4 on the code. [add_player] makes a player with the class that
    [game.py] defines, which has no [register]: for every game and every
    identity, in the player map or not, the call raises [AttributeError]
    at the registration, before the line that stores the player, and the
    world, hence the map, is as it was. There is no test of membership:
    an identity that is in the map fails in the same way as one that is
    not. In the game of two players, user 3 is not in the map, and is
    not in it after [add_player] for that user. *)
Theorem add_player_raises_before_storing :
  (forall ctx w,
     Game_add_player ctx w = (Raise (AttributeError "register"), w))
  /\ (let ctx := ctx_of 30 3 in
      Dict.get (user_id ctx) (Game.players (the_game world_of_two)) = None
      /\ fst (Game_add_player ctx world_of_two)
         = Raise (AttributeError "register")
      /\ Dict.get (user_id ctx)
           (Game.players (game_after (Game_add_player ctx) world_of_two))
         = None)
  /\ (let ctx := ctx_of 30 1 in
      Dict.get (user_id ctx) (Game.players (the_game world_of_two)) <> None
      /\ Game_add_player ctx world_of_two
         = (Raise (AttributeError "register"), world_of_two)).
Proof.
  split; [|split].
  - intros ctx w. reflexivity.
  - cbv zeta. repeat split; reflexivity.
  - cbv zeta. split; [discriminate | reflexivity].
Qed.

(** ** Binary64 values *)

Ltac compare_cases e1 e2 m1 m2 :=
  change (Pos.compare_cont Eq m1 m2) with (Pos.compare m1 m2);
  change (Pos.compare_cont Eq m2 m1) with (Pos.compare m2 m1);
  rewrite (Z.compare_antisym e1 e2), (Pos.compare_antisym m1 m2);
  destruct (e1 ?= e2); simpl; try congruence;
  destruct (m1 ?= m2)%positive; simpl; congruence.

Lemma SFltb_asym (x y : spec_float) : SFltb x y = true -> SFltb y x = false.
Proof.
  unfold SFltb.
  destruct x as [[]|[]| |[] m1 e1], y as [[]|[]| |[] m2 e2]; simpl;
    try congruence; compare_cases e1 e2 m1 m2.
Qed.

Lemma SFleb_not_ltb (x y : spec_float) : SFleb x y = true -> SFltb y x = false.
Proof.
  unfold SFltb, SFleb.
  destruct x as [[]|[]| |[] m1 e1], y as [[]|[]| |[] m2 e2]; simpl;
    try congruence; compare_cases e1 e2 m1 m2.
Qed.

(** [x < y] and [y < x] do not both hold, and [y < x] fails when
    [x <= y]. *)
Lemma ltb_asym (x y : float) : (x <? y)%float = true -> (y <? x)%float = false.
Proof. rewrite !FloatAxioms.ltb_spec. apply SFltb_asym. Qed.

Lemma leb_not_ltb (x y : float) : (x <=? y)%float = true -> (y <? x)%float = false.
Proof. rewrite FloatAxioms.leb_spec, FloatAxioms.ltb_spec. apply SFleb_not_ltb. Qed.

Lemma digits2_pos_shift (p : positive) (n : nat) :
  Zpos (digits2_pos (Nat.iter n xO p)) = Zpos (digits2_pos p) + Z.of_nat n.
Proof.
  induction n as [|n IH]; [simpl; lia|].
  rewrite Nat.iter_succ. cbn [digits2_pos]. rewrite Pos2Z.inj_succ, IH. lia.
Qed.

Lemma iter_shr_1_exact (p : positive) (n : nat) :
  Nat.iter n shr_1 (Build_shr_record (Zpos (Nat.iter n xO p)) false false)
  = Build_shr_record (Zpos p) false false.
Proof.
  induction n as [|n IH]; [reflexivity|].
  rewrite Nat.iter_succ_r. simpl. exact IH.
Qed.

(** The product of 1 and a float is that float: the mantissa of the
    exact product is the other mantissa followed by 52 zeros, and the
    rounding takes them off. *)
Lemma SFmul_one (x : spec_float) :
  valid_binary x = true -> SF64mul (Prim2SF 1%float) x = x.
Proof.
  change (Prim2SF 1%float) with (S754_finite false 4503599627370496 (-52)).
  destruct x as [s|s| |s m e]; try reflexivity.
  unfold SpecFloat.valid_binary, bounded, canonical_mantissa.
  rewrite andb_true_iff, Z.eqb_eq, Z.leb_le.
  intros [Hcanon Hbound].
  unfold SF64mul, SFmul.
  change (xorb false s) with s.
  change (4503599627370496 * m)%positive with (Nat.iter 52 xO m).
  unfold binary_round_aux.
  assert (Hd : Zdigits2 (Zpos (Nat.iter 52 xO m)) = Zpos (digits2_pos m) + 52).
  { cbn [Zdigits2]. rewrite digits2_pos_shift. reflexivity. }
  unfold shr_fexp at 1. rewrite Hd.
  replace (Z.pos (digits2_pos m) + 52 + (-52 + e))
    with (Z.pos (digits2_pos m) + e) by lia.
  rewrite Hcanon.
  replace (e - (-52 + e)) with 52 by lia.
  unfold shr_record_of_loc, shr.
  change (SpecFloat.iter_pos shr_1 52
            {| shr_m := Z.pos (Nat.iter 52 xO m); shr_r := false; shr_s := false |})
    with (Nat.iter 52 shr_1
            {| shr_m := Z.pos (Nat.iter 52 xO m); shr_r := false; shr_s := false |}).
  rewrite iter_shr_1_exact.
  cbn [shr_m loc_of_shr_record round_nearest_even].
  unfold shr_fexp. cbn [Zdigits2].
  replace (-52 + e + 52) with e by lia.
  rewrite Hcanon. rewrite Z.sub_diag. cbn [shr shr_record_of_loc shr_m].
  apply Z.leb_le in Hbound. rewrite Hbound. reflexivity.
Qed.

Lemma mul_one_l (x : float) : (1 * x)%float = x.
Proof.
  apply Prim2SF_inj. rewrite mul_spec. apply SFmul_one, Prim2SF_valid.
Qed.

(** A mantissa that is canonical for its exponent rounds to itself. *)
Lemma binary_round_aux_canonical (s : bool) (m : positive) (e : Z) :
  bounded prec emax m e = true ->
  binary_round_aux prec emax s (Zpos m) e loc_Exact = S754_finite s m e.
Proof.
  unfold bounded, canonical_mantissa. rewrite andb_true_iff, Z.eqb_eq.
  intros [Hcanon Hbound].
  unfold binary_round_aux, shr_fexp. cbn [Zdigits2].
  rewrite Hcanon, Z.sub_diag.
  cbn [shr shr_record_of_loc shr_m loc_of_shr_record round_nearest_even Zdigits2].
  rewrite Hcanon, Z.sub_diag. cbn [shr shr_record_of_loc shr_m].
  rewrite Hbound. reflexivity.
Qed.

Lemma digits2_pos_lower (m : positive) :
  2 ^ (Zpos (digits2_pos m) - 1) <= Zpos m.
Proof.
  induction m as [m IH|m IH|]; cbn [digits2_pos]; [| |simpl; lia];
    rewrite Pos2Z.inj_succ;
    replace (Z.succ (Z.pos (digits2_pos m)) - 1)
      with (Z.succ (Z.pos (digits2_pos m) - 1)) by lia;
    rewrite Z.pow_succ_r by lia; lia.
Qed.

Lemma digits2_pos_small (m : positive) :
  Zpos m < 2 ^ 53 -> Zpos (digits2_pos m) <= 53.
Proof.
  intros Hm. pose proof (digits2_pos_lower m) as Hlow.
  destruct (Z.le_gt_cases (Zpos (digits2_pos m)) 53) as [H|H]; [exact H|].
  exfalso.
  assert (2 ^ 53 <= 2 ^ (Zpos (digits2_pos m) - 1))
    by (apply Z.pow_le_mono_r; lia).
  lia.
Qed.

Lemma digits2_pos_iter (m k : positive) :
  Zpos (digits2_pos (Pos.iter xO m k)) = Zpos (digits2_pos m) + Zpos k.
Proof.
  induction k as [|k IH] using Pos.peano_ind.
  - simpl. lia.
  - rewrite Pos.iter_succ. cbn [digits2_pos]. rewrite Pos2Z.inj_succ, IH. lia.
Qed.

Lemma Pos_iter_xO_value (m k : positive) :
  Zpos (Pos.iter xO m k) = Zpos m * 2 ^ Zpos k.
Proof.
  induction k as [|k IH] using Pos.peano_ind.
  - simpl. lia.
  - rewrite Pos.iter_succ, Pos2Z.inj_xO, IH, Pos2Z.inj_succ.
    rewrite Z.pow_succ_r by lia. lia.
Qed.

(** An integer of at most 53 bits is a binary64 value: its conversion is
    finite, has its sign, and stands for the integer itself. *)
Lemma binary_round_value (s : bool) (m : positive) :
  Zpos m < 2 ^ 53 ->
  exists m' e',
    binary_round prec emax s m 0 = S754_finite s m' e'
    /\ SpecFloat.valid_binary prec emax (S754_finite s m' e') = true
    /\ e' <= 0
    /\ Zpos m' = Zpos m * 2 ^ (- e').
Proof.
  intros Hm. pose proof (digits2_pos_small m Hm) as Hd.
  unfold binary_round, shl_align.
  assert (Hfexp : fexp prec emax (Zpos (digits2_pos m) + 0)
                  = Zpos (digits2_pos m) - 53).
  { unfold fexp, SpecFloat.emin, prec, emax. lia. }
  rewrite Hfexp.
  destruct (Z.pos (digits2_pos m) - 53 - 0) as [|k|k] eqn:Ek; try lia.
  - exists m, 0.
    assert (Hb : bounded prec emax m 0 = true).
    { unfold bounded, canonical_mantissa. rewrite Hfexp.
      apply andb_true_iff. split; [apply Z.eqb_eq; lia | reflexivity]. }
    split; [now apply binary_round_aux_canonical|].
    split; [exact Hb|]. split; [lia|]. simpl. lia.
  - exists (Pos.iter xO m k), (Z.pos (digits2_pos m) - 53).
    assert (Hb : bounded prec emax (Pos.iter xO m k) (Z.pos (digits2_pos m) - 53)
                 = true).
    { unfold bounded, canonical_mantissa. rewrite digits2_pos_iter.
      apply andb_true_iff. split.
      - apply Z.eqb_eq. unfold fexp, SpecFloat.emin, prec, emax. lia.
      - apply Z.leb_le. unfold prec, emax. lia. }
    split; [now apply binary_round_aux_canonical|].
    split; [exact Hb|]. split; [lia|].
    rewrite Pos_iter_xO_value. f_equal. f_equal. lia.
Qed.

Lemma round_to_float_positive (n : Z) :
  0 < n < 2 ^ 53 ->
  exists m e, Prim2SF (round_to_float n) = S754_finite false m e.
Proof.
  intros [Hpos Hsmall]. destruct n as [|m|m]; try lia.
  destruct (binary_round_value false m Hsmall) as (m' & e' & Hround & Hb & _).
  exists m', e'. unfold round_to_float, binary_normalize.
  rewrite Hround. now apply Prim2SF_SF2Prim.
Qed.

Lemma round_to_float_negative (n : Z) :
  - 2 ^ 53 < n < 0 ->
  exists m e, Prim2SF (round_to_float n) = S754_finite true m e.
Proof.
  intros [Hsmall Hneg]. destruct n as [|m|m]; try lia.
  assert (Hm : Zpos m < 2 ^ 53) by lia.
  destruct (binary_round_value true m Hm) as (m' & e' & Hround & Hb & _).
  exists m', e'. unfold round_to_float, binary_normalize.
  rewrite Hround. now apply Prim2SF_SF2Prim.
Qed.

Lemma add_zero_finite (x : float) (s : bool) (m : positive) (e : Z) :
  Prim2SF x = S754_finite s m e -> (x + 0)%float = x.
Proof.
  intros Hx. apply Prim2SF_inj. rewrite add_spec, Hx. reflexivity.
Qed.

Lemma finite_is_finite (x : float) (s : bool) (m : positive) (e : Z) :
  Prim2SF x = S754_finite s m e ->
  is_infinity x = false /\ is_finite x = true.
Proof.
  intros Hx.
  assert (Hinf : is_infinity x = false).
  { unfold is_infinity. rewrite FloatAxioms.eqb_spec, abs_spec, Hx. reflexivity. }
  split; [exact Hinf|].
  unfold is_finite, is_nan. rewrite Hinf, FloatAxioms.eqb_spec, Hx.
  unfold SFeqb, SFcompare. rewrite Z.compare_refl.
  change (Pos.compare_cont Eq m m) with (Pos.compare m m).
  rewrite Pos.compare_refl. now destruct s.
Qed.

(** What [random.choices] makes of a total of at most 53 bits: a total
    above zero converts to a float that passes the two checks, and a
    total below zero to one that fails the first. *)
Lemma float_of_int_positive (n : Z) :
  0 < n < 2 ^ 53 ->
  float_of_int n = Ok (round_to_float n)
  /\ (round_to_float n + 0)%float = round_to_float n
  /\ (round_to_float n <=? 0)%float = false
  /\ is_finite (round_to_float n) = true.
Proof.
  intros Hn. destruct (round_to_float_positive n Hn) as (m & e & Hx).
  destruct (finite_is_finite _ _ _ _ Hx) as [Hinf Hfin].
  unfold float_of_int. rewrite Hinf.
  repeat split; [now apply (add_zero_finite _ false m e) | | exact Hfin].
  rewrite FloatAxioms.leb_spec, Hx. reflexivity.
Qed.

Lemma float_of_int_negative (n : Z) :
  - 2 ^ 53 < n < 0 ->
  float_of_int n = Ok (round_to_float n)
  /\ (round_to_float n + 0)%float = round_to_float n
  /\ (round_to_float n <=? 0)%float = true.
Proof.
  intros Hn. destruct (round_to_float_negative n Hn) as (m & e & Hx).
  destruct (finite_is_finite _ _ _ _ Hx) as [Hinf Hfin].
  unfold float_of_int. rewrite Hinf.
  repeat split; [now apply (add_zero_finite _ true m e)|].
  rewrite FloatAxioms.leb_spec, Hx. reflexivity.
Qed.

(** The comparison of a float with an integer goes up with the
    integer. *)
Lemma float_lt_int_le (x : float) (n n' : Z) :
  n <= n' -> float_lt_int x n = true -> float_lt_int x n' = true.
Proof.
  unfold float_lt_int. intros Hle.
  destruct (Prim2SF x) as [s|s| |s m e]; try (intros H; exact H).
  - rewrite !Z.ltb_lt. lia.
  - cbv zeta. destruct (0 <=? e) eqn:Ee; rewrite !Z.ltb_lt; [lia|].
    apply Z.leb_gt in Ee.
    assert (0 < 2 ^ (- e)) by (apply Z.pow_pos_nonneg; lia).
    nia.
Qed.

Lemma float_lt_int_ge (x : float) (n n' : Z) :
  n' <= n -> float_lt_int x n = false -> float_lt_int x n' = false.
Proof.
  intros Hle Hn. destruct (float_lt_int x n') eqn:E; [|reflexivity].
  rewrite (float_lt_int_le x n' n Hle E) in Hn. discriminate Hn.
Qed.

(** An integer of at most 53 bits above zero converts exactly: the float
    compares with the integers as the integer does. *)
Lemma float_lt_int_round_to_float (n z : Z) :
  0 < n < 2 ^ 53 -> float_lt_int (round_to_float n) z = (n <? z).
Proof.
  intros [Hpos Hsmall]. destruct n as [|m|m]; try lia.
  destruct (binary_round_value false m Hsmall) as (m' & e' & Hround & Hb & He & Hv).
  unfold float_lt_int, round_to_float, binary_normalize.
  rewrite Hround, (Prim2SF_SF2Prim _ Hb). cbv zeta.
  assert (H2 : 0 < 2 ^ (- e')) by (apply Z.pow_pos_nonneg; lia).
  destruct (0 <=? e') eqn:Ee.
  - apply Z.leb_le in Ee. assert (e' = 0) by lia. subst e'.
    simpl in Hv. rewrite Z.pow_0_r, Z.mul_1_r.
    replace (Z.pos m') with (Z.pos m) by lia. reflexivity.
  - rewrite Hv. apply eq_iff_eq_true. rewrite !Z.ltb_lt. nia.
Qed.

(** ** The plumbing of [M] keeps the game *)

Lemma keeps_game_ret {A : Type} (a : A) : keeps_game (mret a : M A).
Proof. intros w. reflexivity. Qed.

Lemma keeps_game_lift {A : Type} (o : outcome A) : keeps_game (lift o).
Proof. intros w. reflexivity. Qed.

Lemma keeps_game_get : keeps_game get_game.
Proof. intros w. reflexivity. Qed.

Lemma keeps_game_emit (e : Event) : keeps_game (emit e).
Proof. intros w. reflexivity. Qed.

Lemma keeps_game_bind {A B : Type} (m : M A) (f : A -> M B) :
  keeps_game m -> (forall a, keeps_game (f a)) -> keeps_game (m ≫= f).
Proof.
  intros Hm Hf w. unfold mbind, M_bind.
  specialize (Hm w). destruct (m w) as [[a|e|] w']; simpl in *; try exact Hm.
  now rewrite Hf.
Qed.

Lemma keeps_game_not_awaited {A : Type} (c : M A) : keeps_game (not_awaited c).
Proof. intros w. reflexivity. Qed.

Lemma keeps_game_for_each {A : Type} (xs : list A) (body : A -> M unit) :
  (forall x, keeps_game (body x)) -> keeps_game (for_each xs body).
Proof.
  intros Hbody. induction xs as [|x xs IH]; simpl.
  - apply keeps_game_ret.
  - apply keeps_game_bind; [apply Hbody | intros _; exact IH].
Qed.

Lemma keeps_game_capture {A : Type} (c : M A) :
  keeps_game c -> keeps_game (capture c).
Proof.
  intros Hc w. unfold capture. specialize (Hc w).
  destruct (c w) as [[a|e|] w']; simpl in *; try exact Hc.
  destruct (is_Exception e); exact Hc.
Qed.

Lemma keeps_game_try_except_Exception {A : Type} (body : M A)
    (handler : exn -> M A) :
  keeps_game body -> (forall e, keeps_game (handler e)) ->
  keeps_game (try_except_Exception body handler).
Proof.
  intros Hb Hh w. unfold try_except_Exception. specialize (Hb w).
  destruct (body w) as [[a|e|] w']; simpl in *; try exact Hb.
  destruct (is_Exception e); simpl; [|exact Hb].
  now rewrite Hh.
Qed.

Create HintDb keeps discriminated.
#[local] Hint Resolve keeps_game_ret keeps_game_lift keeps_game_get
  keeps_game_emit keeps_game_not_awaited : keeps.

Ltac keeps_game_step :=
  first
    [ solve [auto with keeps]
    | apply keeps_game_bind; [|intros ?]
    | apply keeps_game_for_each; intros ?
    | apply keeps_game_capture
    | apply keeps_game_try_except_Exception; [|intros ?] ].

Lemma keeps_game_send_message (to : SlashContext) (embed : Embed)
    (row : option (list Button)) :
  keeps_game (send_message to embed row).
Proof. apply keeps_game_emit. Qed.

#[local] Hint Resolve keeps_game_send_message : keeps.

Lemma keeps_game_Template_ui (tpl : Template.t) (player : Player.t)
    (actor : Actor.t) :
  keeps_game (Template_ui tpl player actor).
Proof.
  destruct tpl; unfold Template_ui, await; repeat keeps_game_step.
Qed.

#[local] Hint Resolve keeps_game_Template_ui : keeps.

Lemma keeps_game_Actor_send (actor : Actor.t) (target : Player.t) (r : float) :
  keeps_game (Actor_send actor target r).
Proof.
  unfold Actor_send, await. repeat keeps_game_step.
Qed.

#[local] Hint Resolve keeps_game_Actor_send : keeps.

Lemma keeps_game_Game_tick (death_embed : Player.t -> outcome Embed)
    (player : Player.t) (d : Draws) :
  keeps_game (Game_tick death_embed player d).
Proof.
  unfold Game_tick, await, asyncio_sleep. repeat keeps_game_step.
  match goal with b : bool |- _ => destruct b end; auto with keeps.
Qed.

Lemma keeps_game_gather_ticks (death_embed : Player.t -> outcome Embed)
    (players : list Player.t) (draws : Z -> Draws) :
  keeps_game (gather_ticks death_embed players draws).
Proof.
  induction players as [|p ps IH]; simpl.
  - apply keeps_game_ret.
  - apply keeps_game_bind.
    + apply keeps_game_capture, keeps_game_Game_tick.
    + intros r. apply keeps_game_bind; [exact IH | intros rs; apply keeps_game_ret].
Qed.

(** After [m ≫= f], the game is the one [m] leaves when [f] keeps it. *)
Lemma game_after_bind {A B : Type} (m : M A) (f : A -> M B) (w : World) :
  (forall a, keeps_game (f a)) -> game_after (m ≫= f) w = game_after m w.
Proof.
  intros Hf. unfold game_after, mbind, M_bind.
  destruct (m w) as [[a|e|] w']; simpl; try reflexivity.
  apply Hf.
Qed.

(** A turn of the loop changes the game as its stage test does. *)
Lemma loop_iteration_game (death_embed : Player.t -> outcome Embed)
    (error_embed : exn -> Embed) (o : Observation) (w : World) :
  game_after (loop_iteration death_embed error_embed o) w
  = game_after (advance_stage (game_time o)) w.
Proof.
  unfold loop_iteration. apply game_after_bind. intros _.
  repeat keeps_game_step.
  unfold await. apply keeps_game_gather_ticks.
Qed.

(** ** The stage test of the loop *)

Ltac evaluate_indexing :=
  repeat match goal with
         | |- context [getitem ?l ?i] =>
             let v := eval vm_compute in (getitem l i) in
             change (getitem l i) with v
         | |- context [Z.to_nat ?z] =>
             let v := eval vm_compute in (Z.to_nat z) in
             change (Z.to_nat z) with v
         | |- context [Game.with_stage (?a + ?b)] =>
             let v := eval vm_compute in (a + b) in
             change (a + b) with v
         end.

(** With the initial thresholds and a declared stage, the stage test
    returns; it moves the stage to the next one when both comparisons
    hold, and both cannot hold at the last stage. *)
Lemma advance_stage_declared (w : World) (t : float) :
  initial_thresholds (the_game w) -> declared_stage (Game.stage (the_game w)) ->
  let g := the_game w in
  let test := (current_threshold g * Game.max_time g <? t)%float
              && (t <? Game.max_time g)%float in
  advance_stage t w =
    (Ok tt,
     if test
     then {| the_game := Game.with_stage (Game.stage g + 1) g; events := events w |}
     else w)
  /\ (test = true -> Game.stage g <> 3).
Proof.
  destruct w as [[id ps s mt cumm vals] evs]. unfold initial_thresholds. simpl.
  intros -> Hs.
  assert (Hlast : (1 * mt <? t)%float && (t <? mt)%float = false).
  { rewrite mul_one_l. destruct (mt <? t)%float eqn:E1; [|reflexivity].
    now rewrite (ltb_asym mt t E1). }
  unfold declared_stage, total_stages in Hs. simpl in Hs.
  destruct Hs as [<-|[<-|[<-|[]]]];
    unfold advance_stage, current_threshold; unfold_M;
    cbn -[PrimFloat.ltb PrimFloat.mul getitem]; evaluate_indexing;
    cbn -[PrimFloat.ltb PrimFloat.mul].
  - destruct ((0.25 * mt <? t)%float && (t <? mt)%float);
      (split; [reflexivity | intros H; first [discriminate H | lia]]).
  - destruct ((0.6 * mt <? t)%float && (t <? mt)%float);
      (split; [reflexivity | intros H; first [discriminate H | lia]]).
  - rewrite Hlast. split; [reflexivity | discriminate].
Qed.

Lemma past_threshold_test (g : Game.t) (t : float) :
  past_threshold g t <->
  (current_threshold g * Game.max_time g <? t)%float
  && (t <? Game.max_time g)%float = true.
Proof.
  unfold past_threshold. now rewrite andb_true_iff.
Qed.

(** The stage test keeps the invariant, and leaves the stage where it
    was or one further. *)
Lemma advance_stage_invariant (w : World) (t : float) :
  stage_invariant (the_game w) ->
  let g' := game_after (advance_stage t) w in
  stage_invariant g'
  /\ (Game.stage g' = Game.stage (the_game w)
      \/ Game.stage g' = Game.stage (the_game w) + 1).
Proof.
  intros [Hthr Hs]. cbv zeta. unfold game_after.
  destruct (advance_stage_declared w t Hthr Hs) as [-> Hnot3].
  simpl. destruct (PrimFloat.ltb _ _ && PrimFloat.ltb _ _).
  - simpl. split; [split|]; [exact Hthr | | right; reflexivity].
    specialize (Hnot3 eq_refl).
    unfold declared_stage, total_stages in *. simpl in *.
    destruct Hs as [<-|[<-|[Hs|[]]]]; [auto | auto | congruence].
  - split; [split; assumption | left; reflexivity].
Qed.

Lemma declared_stage_bounds (s : Z) : declared_stage s -> 1 <= s <= 3.
Proof.
  unfold declared_stage, total_stages. simpl. lia.
Qed.

Lemma loop_iteration_invariant (death_embed : Player.t -> outcome Embed)
    (error_embed : exn -> Embed) (o : Observation) (w : World) :
  stage_invariant (the_game w) ->
  let g' := game_after (loop_iteration death_embed error_embed o) w in
  stage_invariant g'
  /\ (Game.stage g' = Game.stage (the_game w)
      \/ Game.stage g' = Game.stage (the_game w) + 1).
Proof.
  intros Hinv. cbv zeta. rewrite loop_iteration_game.
  now apply advance_stage_invariant.
Qed.

Lemma Game_loop_app (death_embed : Player.t -> outcome Embed)
    (error_embed : exn -> Embed) (before after : list Observation) (w : World) :
  Game_loop death_embed error_embed (before ++ after) w =
    match Game_loop death_embed error_embed before w with
    | (Ok _, w') => Game_loop death_embed error_embed after w'
    | (Raise e, w') => (Raise e, w')
    | (Unmodelled, w') => (Unmodelled, w')
    end.
Proof.
  revert w. induction before as [|o before IH]; intros w; simpl.
  - reflexivity.
  - unfold mbind, M_bind.
    destruct (loop_iteration death_embed error_embed o w) as [[[]|e|] w'];
      [apply IH | reflexivity | reflexivity].
Qed.

Lemma Game_loop_invariant (death_embed : Player.t -> outcome Embed)
    (error_embed : exn -> Embed) (observations : list Observation) (w : World) :
  stage_invariant (the_game w) ->
  let g' := game_after (Game_loop death_embed error_embed observations) w in
  stage_invariant g' /\ Game.stage (the_game w) <= Game.stage g'.
Proof.
  revert w. induction observations as [|o rest IH]; intros w Hinv; cbv zeta.
  - split; [exact Hinv | apply Z.le_refl].
  - unfold game_after. simpl. unfold mbind, M_bind.
    destruct (loop_iteration_invariant death_embed error_embed o w Hinv)
      as [Hinv' Hstep].
    unfold game_after in Hinv', Hstep.
    destruct (loop_iteration death_embed error_embed o w) as [[[]|e|] w'];
      simpl in *.
    + destruct (IH w' Hinv') as [Hinv'' Hle]. unfold game_after in *.
      split; [exact Hinv''|]. lia.
    + split; [exact Hinv'|]. lia.
    + split; [exact Hinv'|]. lia.
Qed.

(** C2. From a game with the initial thresholds and a declared stage,
    whatever the loop observes: the stage after one more turn is the
    stage before it or the next declared stage, and over any stretch of
    turns the stage does not decrease and stays a declared stage, so at
    most 3. *)
Theorem stage_monotone_and_bounded
    (death_embed : Player.t -> outcome Embed) (error_embed : exn -> Embed)
    (w : World) :
  initial_thresholds (the_game w) ->
  declared_stage (Game.stage (the_game w)) ->
  let stage_after observations :=
    Game.stage (game_after (Game_loop death_embed error_embed observations) w) in
  (forall before o,
     (stage_after (before ++ [o]) = stage_after before
      \/ stage_after (before ++ [o]) = stage_after before + 1)
     /\ declared_stage (stage_after (before ++ [o])))
  /\ (forall before after,
        Game.stage (the_game w) <= stage_after before
        /\ stage_after before <= stage_after (before ++ after)
        /\ stage_after (before ++ after) <= 3).
Proof.
  intros Hthr Hs. cbv zeta.
  assert (Hinv : stage_invariant (the_game w)) by (split; assumption).
  split.
  - intros before o.
    destruct (Game_loop_invariant death_embed error_embed before w Hinv)
      as [Hinv1 _].
    unfold game_after in *. rewrite Game_loop_app.
    destruct (Game_loop death_embed error_embed before w) as [[[]|e|] w1];
      simpl in *.
    + unfold mbind, M_bind.
      destruct (loop_iteration_invariant death_embed error_embed o w1 Hinv1)
        as [[_ Hdecl] Hstep].
      unfold game_after in *.
      destruct (loop_iteration death_embed error_embed o w1) as [[[]|e|] w2];
        simpl in *; split; auto.
    + split; [left; reflexivity | apply Hinv1].
    + split; [left; reflexivity | apply Hinv1].
  - intros before after.
    destruct (Game_loop_invariant death_embed error_embed before w Hinv)
      as [Hinv1 Hle1].
    unfold game_after in *. rewrite Game_loop_app.
    destruct (Game_loop death_embed error_embed before w) as [[[]|e|] w1];
      simpl in *.
    + destruct (Game_loop_invariant death_embed error_embed after w1 Hinv1)
        as [[_ Hdecl] Hle2].
      unfold game_after in *. apply declared_stage_bounds in Hdecl. lia.
    + destruct Hinv1 as [_ Hdecl]. apply declared_stage_bounds in Hdecl. lia.
    + destruct Hinv1 as [_ Hdecl]. apply declared_stage_bounds in Hdecl. lia.
Qed.

(** C2 on the game of two players, observed at 3, 4 and 9 minutes and
    then at 20. *)
Lemma stage_monotone_and_bounded_witness :
  let stage_after observations :=
    Game.stage
      (game_after (Game_loop no_death_embed plain_error_embed observations)
         world_of_two) in
  stage_after [observe 3; observe 4] <= stage_after [observe 3; observe 4; observe 9; observe 20]
  /\ stage_after [observe 3; observe 4; observe 9; observe 20] <= 3.
Proof.
  assert (Hthr : initial_thresholds (the_game world_of_two)) by reflexivity.
  assert (Hs : declared_stage (Game.stage (the_game world_of_two)))
    by (left; reflexivity).
  destruct (stage_monotone_and_bounded no_death_embed plain_error_embed
              world_of_two Hthr Hs) as [_ Hspan].
  destruct (Hspan [observe 3; observe 4] [observe 9; observe 20])
    as [_ [Hle Hmax]].
  split; [exact Hle | exact Hmax].
Defined.

(** C3. A game of total duration 14.0 with the thresholds 0.25, 0.6 and
    1: the stage test leaves stage 1 at 3.0 minutes, moves stage 1 to 2
    at 4.0 minutes and stage 2 to 3 at 9.0 minutes. In general, with
    these thresholds and a declared stage, the test returns, and the
    stage moves to the next one exactly when the elapsed time is above
    the current threshold times the duration and below the duration; it
    stays otherwise. The times, the product and the two comparisons are
    those of binary64, as the code computes them. *)
Theorem stage_advances_exactly_past_threshold :
  (forall id players evs,
     let g := Game.with_players players (Game_init id 14) in
     let at_stage s := {| the_game := Game.with_stage s g; events := evs |} in
     Game.stage g = 1
     /\ Game.stage (game_after (advance_stage 3) (at_stage 1)) = 1
     /\ Game.stage (game_after (advance_stage 4) (at_stage 1)) = 2
     /\ Game.stage (game_after (advance_stage 9) (at_stage 2)) = 3)
  /\ (forall w elapsed,
        initial_thresholds (the_game w) ->
        declared_stage (Game.stage (the_game w)) ->
        let s := Game.stage (the_game w) in
        let s' := Game.stage (game_after (advance_stage elapsed) w) in
        fst (advance_stage elapsed w) = Ok tt
        /\ (s' = s + 1 <-> past_threshold (the_game w) elapsed)
        /\ (s' = s <-> ~ past_threshold (the_game w) elapsed)).
Proof.
  split.
  - intros id players evs. cbv zeta. repeat split; reflexivity.
  - intros w elapsed Hthr Hs. cbv zeta. unfold game_after.
    destruct (advance_stage_declared w elapsed Hthr Hs) as [-> _].
    rewrite past_threshold_test. simpl.
    destruct (PrimFloat.ltb _ _ && PrimFloat.ltb _ _); simpl.
    + split; [reflexivity|]. split; split; try reflexivity; intros H.
      * lia.
      * exfalso. apply H. reflexivity.
    + split; [reflexivity|]. split; split; try reflexivity; intros H.
      * lia.
      * discriminate H.
      * discriminate.
Qed.

(** C3 on the game of two players, whose total duration is 14.0: at
    4.0 minutes the elapsed time is past the threshold of stage 1, and
    the stage becomes 2. Once at stage 2, an elapsed time of 8.4 is not
    past the threshold, the product of 0.6 and 14.0 being the float 8.4
    itself, and the stage stays 2. *)
Lemma stage_advances_exactly_past_threshold_witness :
  let at_stage_2 :=
    {| the_game := Game.with_stage 2 game_of_two; events := [] |} in
  past_threshold (the_game world_of_two) 4
  /\ Game.stage (game_after (advance_stage 4) world_of_two) = 2
  /\ (0.6 * 14)%float = 8.4%float
  /\ ~ past_threshold (the_game at_stage_2) 8.4
  /\ Game.stage (game_after (advance_stage 8.4) at_stage_2) = 2.
Proof.
  cbv zeta.
  assert (Hthr : initial_thresholds (the_game world_of_two)) by reflexivity.
  assert (Hs : declared_stage (Game.stage (the_game world_of_two)))
    by (left; reflexivity).
  assert (Hpast : past_threshold (the_game world_of_two) 4)
    by (split; reflexivity).
  assert (Hs2 : declared_stage 2) by (right; left; reflexivity).
  assert (Hnot : ~ past_threshold (Game.with_stage 2 game_of_two) 8.4)
    by (intros [H _]; discriminate H).
  destruct stage_advances_exactly_past_threshold as [_ Hgeneral].
  destruct (Hgeneral world_of_two 4%float Hthr Hs) as [_ [Hnext _]].
  destruct (Hgeneral {| the_game := Game.with_stage 2 game_of_two; events := [] |}
              8.4%float Hthr Hs2) as [_ [_ Hstay]].
  split; [exact Hpast|]. split; [apply Hnext; exact Hpast|].
  split; [reflexivity|]. split; [exact Hnot|]. apply Hstay. exact Hnot.
Defined.

(** ** What [random.choices] returns *)

Lemma getitem_nat {A : Type} (l : list A) (i : nat) (x : A) :
  nth_error l i = Some x -> getitem l (Z.of_nat i) = Ok x.
Proof.
  intros H. assert (Hlt : (i < length l)%nat) by (apply nth_error_Some; congruence).
  unfold getitem.
  destruct (Z.of_nat i <? 0) eqn:E; [apply Z.ltb_lt in E; lia|].
  rewrite E. simpl.
  destruct (Z.of_nat (length l) <=? Z.of_nat i) eqn:E2;
    [apply Z.leb_le in E2; lia|].
  rewrite Nat2Z.id, H. reflexivity.
Qed.

Lemma getitem_last {A : Type} (l : list A) (x : A) :
  nth_error l (length l - 1) = Some x -> getitem l (-1) = Ok x.
Proof.
  intros H. assert (Hlt : (length l - 1 < length l)%nat)
    by (apply nth_error_Some; congruence).
  unfold getitem. simpl.
  destruct (-1 + Z.of_nat (length l) <? 0) eqn:E; [apply Z.ltb_lt in E; lia|].
  destruct (Z.of_nat (length l) <=? -1 + Z.of_nat (length l)) eqn:E2;
    [apply Z.leb_le in E2; lia|].
  simpl. replace (Z.to_nat (-1 + Z.of_nat (length l))) with (length l - 1)%nat by lia.
  now rewrite H.
Qed.

Lemma length_accumulate_from (acc : Z) (ws : list Z) :
  length (accumulate_from acc ws) = length ws.
Proof.
  revert acc. induction ws as [|w ws IH]; intros acc; simpl; [reflexivity|].
  now rewrite IH.
Qed.

Lemma nth_accumulate_from (acc : Z) (ws : list Z) (i : nat) :
  (i < length ws)%nat ->
  nth i (accumulate_from acc ws) 0 = acc + sum_weights (firstn (S i) ws).
Proof.
  revert acc i. induction ws as [|w ws IH]; intros acc i Hi; simpl in Hi; [lia|].
  destruct i as [|i].
  - simpl. destruct ws; simpl; lia.
  - change (nth (S i) (accumulate_from acc (w :: ws)) 0)
      with (nth i (accumulate_from (acc + w) ws) 0).
    rewrite IH by lia.
    change (firstn (S (S i)) (w :: ws)) with (w :: firstn (S i) ws).
    unfold sum_weights. simpl. lia.
Qed.

Lemma sum_weights_firstn_le (ws : list Z) (i j : nat) :
  Forall (fun w => 0 <= w) ws -> (i <= j)%nat ->
  sum_weights (firstn i ws) <= sum_weights (firstn j ws).
Proof.
  intros Hpos. revert i j. induction Hpos as [|w ws Hw Hpos IH]; intros i j Hij.
  - rewrite !firstn_nil. reflexivity.
  - destruct i as [|i]; destruct j as [|j]; try lia.
    + change (firstn 0 (w :: ws)) with (@nil Z).
      change (firstn (S j) (w :: ws)) with (w :: firstn j ws).
      specialize (IH 0%nat j ltac:(lia)). unfold sum_weights in *. simpl in *. lia.
    + change (firstn (S i) (w :: ws)) with (w :: firstn i ws).
      change (firstn (S j) (w :: ws)) with (w :: firstn j ws).
      specialize (IH i j ltac:(lia)). unfold sum_weights in *. simpl. lia.
Qed.

Lemma non_decreasing_accumulate (ws : list Z) :
  Forall (fun w => 0 <= w) ws -> non_decreasing (accumulate ws).
Proof.
  intros Hpos i j Hij. unfold accumulate in *.
  rewrite length_accumulate_from in Hij.
  rewrite !nth_accumulate_from by lia.
  pose proof (sum_weights_firstn_le ws (S i) (S j) Hpos ltac:(lia)). lia.
Qed.

Lemma midpoint_between (lo hi : nat) :
  (lo < hi)%nat -> (lo <= (lo + hi) / 2 < hi)%nat.
Proof.
  intros H. split.
  - apply Nat.div_le_lower_bound; lia.
  - apply Nat.Div0.div_lt_upper_bound; lia.
Qed.

(** The bisection stays between its bounds. *)
Lemma bisect_loop_range (fuel : nat) (a : list Z) (x : float) (lo hi : nat) :
  (lo <= hi)%nat ->
  (lo <= bisect_loop fuel a x lo hi <= hi)%nat.
Proof.
  revert lo hi.
  induction fuel as [|fuel IH]; intros lo hi Hle; cbn [bisect_loop]; [lia|].
  destruct (lo <? hi)%nat eqn:E; [|lia].
  apply Nat.ltb_lt in E.
  pose proof (midpoint_between lo hi E) as Hmid.
  destruct (float_lt_int x _).
  - specialize (IH lo ((lo + hi) / 2)%nat ltac:(lia)). lia.
  - specialize (IH ((lo + hi) / 2 + 1)%nat hi ltac:(lia)). lia.
Qed.

(** On a list that never decreases, with no element before [lo] above
    [x] and every element from [hi] up to [top] above [x], the bisection
    finds the first element above [x] among those before [top], or
    [top] when there is none. *)
Lemma bisect_loop_first_above (fuel : nat) (a : list Z) (x : float)
    (lo hi top : nat) :
  non_decreasing a ->
  (hi - lo <= fuel)%nat -> (lo <= hi <= top)%nat -> (top <= length a)%nat ->
  (forall j, (j < lo)%nat -> float_lt_int x (nth j a 0) = false) ->
  (forall j, (hi <= j < top)%nat -> float_lt_int x (nth j a 0) = true) ->
  let i := bisect_loop fuel a x lo hi in
  (lo <= i <= hi)%nat
  /\ (forall j, (j < i)%nat -> float_lt_int x (nth j a 0) = false)
  /\ (forall j, (i <= j < top)%nat -> float_lt_int x (nth j a 0) = true).
Proof.
  intros Hsorted. revert lo hi.
  induction fuel as [|fuel IH]; intros lo hi Hfuel Hbounds Htop Hbelow Habove;
    cbn [bisect_loop].
  - assert (lo = hi) by lia. subst hi. repeat split; auto; lia.
  - destruct (lo <? hi)%nat eqn:E.
    + apply Nat.ltb_lt in E.
      pose proof (midpoint_between lo hi E) as Hmid.
      destruct (float_lt_int x (nth ((lo + hi) / 2) a 0)) eqn:Ex.
      * assert (Habove' : forall j, ((lo + hi) / 2 <= j < top)%nat ->
                            float_lt_int x (nth j a 0) = true).
        { intros j Hj. apply (float_lt_int_le x (nth ((lo + hi) / 2) a 0));
            [apply Hsorted; lia | exact Ex]. }
        destruct (IH lo ((lo + hi) / 2)%nat ltac:(lia) ltac:(lia) Htop
                    Hbelow Habove') as (Hr & Hb & Ha).
        repeat split; auto; lia.
      * assert (Hbelow' : forall j, (j < (lo + hi) / 2 + 1)%nat ->
                            float_lt_int x (nth j a 0) = false).
        { intros j Hj. apply (float_lt_int_ge x (nth ((lo + hi) / 2) a 0));
            [apply Hsorted; lia | exact Ex]. }
        destruct (IH ((lo + hi) / 2 + 1)%nat hi ltac:(lia) ltac:(lia) Htop
                    Hbelow' Habove) as (Hr & Hb & Ha).
        repeat split; auto; lia.
    + apply Nat.ltb_ge in E. assert (lo = hi) by lia. subst hi.
      repeat split; auto; lia.
Qed.

Lemma accumulate_last (ws : list Z) :
  ws <> [] ->
  nth_error (accumulate ws) (length (accumulate ws) - 1) = Some (sum_weights ws).
Proof.
  intros Hne. unfold accumulate. rewrite length_accumulate_from.
  assert (Hlen : (length ws - 1 < length ws)%nat).
  { destruct ws; [congruence | simpl; lia]. }
  rewrite (nth_error_nth' _ 0) by (rewrite length_accumulate_from; exact Hlen).
  rewrite nth_accumulate_from by exact Hlen.
  replace (S (length ws - 1)) with (length ws) by lia.
  now rewrite firstn_all.
Qed.

(** What [random.choices] does with a population and as many weights:
    it fails on an empty population; otherwise the total is the sum of
    the weights, converted, and the element returned is the one at the
    index the bisection gives. *)
Lemma choices_cases {A : Type} (population : list A) (weights : list Z)
    (r : float) :
  length weights = length population ->
  choices population weights r =
    match population with
    | [] => Raise IndexError
    | _ :: _ =>
        converted ← float_of_int (sum_weights weights);
        let total := (converted + 0)%float in
        if (total <=? 0)%float then Raise ValueError
        else if negb (is_finite total) then Raise ValueError
        else getitem population
               (Z.of_nat (bisect (accumulate weights) (r * total)%float
                            0 (length population - 1)))
    end.
Proof.
  intros Hlen. unfold choices.
  unfold accumulate at 1. rewrite length_accumulate_from, Hlen, Nat.eqb_refl.
  simpl negb. cbv iota.
  destruct population as [|x population].
  - destruct weights; [reflexivity | discriminate Hlen].
  - assert (Hne : weights <> []) by (destruct weights; [discriminate Hlen | congruence]).
    rewrite (getitem_last _ _ (accumulate_last weights Hne)).
    reflexivity.
Qed.

(** The index the bisection gives is one of the population. *)
Lemma getitem_bisect {A : Type} (population : list A) (a : list Z) (x : float) :
  population <> [] ->
  exists y,
    getitem population (Z.of_nat (bisect a x 0 (length population - 1))) = Ok y
    /\ In y population.
Proof.
  intros Hne. set (i := bisect a x 0 (length population - 1)).
  assert (Hi : (i <= length population - 1)%nat).
  { unfold i, bisect. apply bisect_loop_range. lia. }
  assert (Hlen : (0 < length population)%nat)
    by (destruct population; [congruence | simpl; lia]).
  destruct (nth_error population i) as [y|] eqn:E.
  - exists y. split; [now apply getitem_nat | eapply nth_error_In, E].
  - apply nth_error_None in E. lia.
Qed.

(** With a total of at most 53 bits that is above zero, the two checks
    pass and the bisection is at [random()] times the total. *)
Lemma choices_small_total {A : Type} (population : list A) (weights : list Z)
    (r : float) :
  length weights = length population ->
  0 < sum_weights weights < 2 ^ 53 ->
  population <> []
  /\ choices population weights r =
       getitem population
         (Z.of_nat (bisect (accumulate weights)
                      (r * round_to_float (sum_weights weights))%float
                      0 (length population - 1))).
Proof.
  intros Hlen Htotal.
  assert (Hne : population <> []).
  { intros ->. destruct weights; [|discriminate Hlen].
    unfold sum_weights in Htotal. simpl in Htotal. lia. }
  split; [exact Hne|].
  rewrite choices_cases by exact Hlen.
  destruct population as [|y population]; [congruence|].
  destruct (float_of_int_positive _ Htotal) as (-> & Hadd & Hleb & Hfin).
  cbn [mbind outcome_bind]. cbv zeta. rewrite Hadd, Hleb, Hfin. reflexivity.
Qed.

Lemma choices_returns {A : Type} (population : list A) (weights : list Z)
    (r : float) :
  length weights = length population ->
  0 < sum_weights weights < 2 ^ 53 ->
  exists y, choices population weights r = Ok y /\ In y population.
Proof.
  intros Hlen Htotal.
  destruct (choices_small_total population weights r Hlen Htotal) as [Hne ->].
  now apply getitem_bisect.
Qed.

(** ** The pools of an actor *)

Lemma collect_templates_concat (s : Z) (groups : list StageGroup.t)
    (acc : list Template.t) :
  collect_templates s groups acc =
    acc ++ concat (List.map StageGroup.templates
                     (List.filter (group_matches s) groups)).
Proof.
  revert acc. induction groups as [|g groups IH]; intros acc; simpl.
  - now rewrite app_nil_r.
  - destruct (group_matches s g); simpl.
    + rewrite IH. now rewrite <- app_assoc.
    + apply IH.
Qed.

Lemma cast_stages_lookup (groups : list StageGroup.t) (s : Z) :
  declared_stage s ->
  Actor_cast_stages groups !! s
  = Some (StageData_init (collect_templates s groups [])).
Proof.
  unfold declared_stage, total_stages, Actor_cast_stages. simpl.
  intros [<-|[<-|[<-|[]]]]; now simplify_map_eq.
Qed.

Lemma getitem_In {A : Type} (l : list A) (i : Z) (x : A) :
  getitem l i = Ok x -> In x l.
Proof.
  unfold getitem.
  destruct (_ || _); [discriminate|].
  destruct (nth_error l _) eqn:E; [|discriminate].
  intros [= <-]. eapply nth_error_In, E.
Qed.

Lemma choices_In {A : Type} (population : list A) (weights : list Z) (r : float)
    (x : A) :
  choices population weights r = Ok x -> In x population.
Proof.
  unfold choices.
  destruct (negb _); [discriminate|].
  unfold mbind, outcome_bind.
  destruct (getitem (accumulate weights) (-1)) as [last| |]; try discriminate.
  destruct (float_of_int last) as [converted| |]; try discriminate.
  cbv zeta. destruct (_ <=? _)%float; [discriminate|].
  destruct (negb _); [discriminate|].
  apply getitem_In.
Qed.

Lemma group_matches_init (a : stage_arg) (ts : list Template.t) (s : Z) :
  group_matches s (StageGroup_init a ts) = stage_set_contains a s.
Proof. destruct a; reflexivity. Qed.

Lemma matching_groups_as_written (written : list (stage_arg * list Template.t))
    (s : Z) :
  concat (List.map StageGroup.templates
            (List.filter (group_matches s)
               (List.map (fun g => StageGroup_init (fst g) (snd g)) written)))
  = concat (List.map snd
              (List.filter (fun g => stage_set_contains (fst g) s) written)).
Proof.
  induction written as [|[a ts] written IH]; simpl; [reflexivity|].
  rewrite group_matches_init.
  destruct (stage_set_contains a s); simpl; now rewrite IH.
Qed.

(** C5. For an actor built from stage groups written as (stage set,
    templates), and a declared stage: the entry kept for the stage holds,
    as its templates, the concatenation, in the order the groups were
    given, of the templates of the groups whose stage set contains the
    stage ("all" containing every declared stage), and as its weights the
    weights of these templates; the selection is the draw of
    [random.choices] from exactly these templates with these weights; a
    template that the selection returns is in that pool, so it is a
    template of such a group; and the selection does return a template
    when the weights of the pool sum to more than zero (and to less than
    2^53). *)
Theorem select_returns_template_of_matching_group
    (name picture : string) (written : list (stage_arg * list Template.t))
    (s : Z) :
  declared_stage s ->
  let actor :=
    Actor_init name picture
      (List.map (fun g => StageGroup_init (fst g) (snd g)) written) in
  let pool :=
    concat (List.map snd
              (List.filter (fun g => stage_set_contains (fst g) s) written)) in
  Actor.stages actor !! s = Some (StageData_init pool)
  /\ (exists data,
        Actor.stages actor !! s = Some data
        /\ StageData.templates data = pool
        /\ StageData.weights data = List.map Template.weight pool)
  /\ (forall r,
        Actor_select actor s r
        = choices pool (List.map Template.weight pool) r)
  /\ (forall r tpl,
        Actor_select actor s r = Ok tpl ->
        In tpl pool
        /\ exists a ts,
             In (a, ts) written /\ stage_set_contains a s = true /\ In tpl ts)
  /\ (forall r,
        0 < sum_weights (List.map Template.weight pool) < 2 ^ 53 ->
        exists tpl, Actor_select actor s r = Ok tpl).
Proof.
  intros Hs actor pool.
  assert (Hpool : Actor.stages actor !! s = Some (StageData_init pool)).
  { unfold actor, Actor_init. simpl. rewrite cast_stages_lookup by exact Hs.
    rewrite collect_templates_concat. simpl.
    now rewrite matching_groups_as_written. }
  assert (Hdraw : forall r,
            Actor_select actor s r
            = choices pool (List.map Template.weight pool) r).
  { intros r. unfold Actor_select, stages_getitem. rewrite Hpool. reflexivity. }
  split; [exact Hpool|]. split; [|split; [exact Hdraw|split]].
  - exists (StageData_init pool). repeat split. exact Hpool.
  - intros r tpl. rewrite Hdraw.
    intros Hsel. apply choices_In in Hsel. split; [exact Hsel|].
    unfold pool in Hsel. apply in_concat in Hsel as [ts [Hts Hin]].
    apply in_map_iff in Hts as [[a ts'] [<- Hg]].
    apply filter_In in Hg as [Hg Hcontains].
    exists a, ts'. auto.
  - intros r Htotal. rewrite Hdraw.
    destruct (choices_returns pool (List.map Template.weight pool) r)
      as (tpl & Htpl & _); [apply length_map | exact Htotal |].
    now exists tpl.
Qed.

(** C5 on an actor with a group for stage 1, a group for all stages and
    a group for stages 2 and 3: at stage 2 the entry holds the templates
    of the last two groups, in that order, with their weights of 100; a
    draw of 0 gives the first of them and a draw of 0.75 the second. *)
Lemma select_returns_template_of_matching_group_witness :
  let written :=
    [(AStage 1, [Template_init "one"]);
     (AAll, [Template_init "any"]);
     (ATuple [2; 3], [Template_init "late"])] in
  let actor :=
    Actor_init "Herald" "herald.png"
      (List.map (fun g => StageGroup_init (fst g) (snd g)) written) in
  (exists data,
     Actor.stages actor !! 2 = Some data
     /\ StageData.templates data = [Template_init "any"; Template_init "late"]
     /\ StageData.weights data = [100; 100])
  /\ Actor_select actor 2 0 = Ok (Template_init "any")
  /\ Actor_select actor 2 0.75 = Ok (Template_init "late")
  /\ In (Template_init "late") [Template_init "any"; Template_init "late"]
  /\ exists tpl, Actor_select actor 2 0.5 = Ok tpl.
Proof.
  cbv zeta.
  assert (Hs : declared_stage 2) by (right; left; reflexivity).
  destruct (select_returns_template_of_matching_group "Herald" "herald.png"
              [(AStage 1, [Template_init "one"]);
               (AAll, [Template_init "any"]);
               (ATuple [2; 3], [Template_init "late"])] 2 Hs)
    as (_ & Hdata & Hdraw & Hsel & Hreturns).
  split; [exact Hdata|]. split; [|split; [|split]].
  - rewrite Hdraw. reflexivity.
  - rewrite Hdraw. reflexivity.
  - apply (Hsel 0.75%float (Template_init "late")).
    rewrite Hdraw. reflexivity.
  - apply (Hreturns 0.5%float). split; reflexivity.
Defined.

(** C10. For an actor built from any list of stage groups, the
    dictionary of its stages has an entry for each declared stage: the
    pool collected for it, which may be empty. So the lookup that
    [Actor.send] starts with returns for a game at a declared stage, and
    [send] goes on to draw from that entry. An actor built from no group
    has the three entries, with empty pools. *)
Theorem every_declared_stage_has_an_entry
    (name picture : string) (groups : list StageGroup.t) (s : Z) :
  declared_stage s ->
  let actor := Actor_init name picture groups in
  let data := StageData_init (collect_templates s groups []) in
  Actor.stages actor !! s = Some data
  /\ stages_getitem (Actor.stages actor) s = Ok data
  /\ Actor.stages (Actor_init name picture []) !! s = Some (StageData_init [])
  /\ (forall target r w,
        Game.stage (the_game w) = s ->
        Actor_send actor target r w =
          (template ← lift (StageData_get_random data r);
           await (Template_ui template target actor)) w).
Proof.
  intros Hs actor data.
  assert (Hentry : Actor.stages actor !! s = Some data)
    by (apply cast_stages_lookup; exact Hs).
  split; [exact Hentry|]. split; [|split].
  - unfold stages_getitem. now rewrite Hentry.
  - simpl. now rewrite cast_stages_lookup.
  - intros target r w Hw. unfold Actor_send, Actor_select, stages_getitem.
    unfold_M. rewrite Hw, Hentry. reflexivity.
Qed.

(** C10 on an actor built from no stage group, at stage 3. *)
Lemma every_declared_stage_has_an_entry_witness :
  stages_getitem (Actor.stages (Actor_init "Nobody" "" [])) 3
  = Ok (StageData_init []).
Proof.
  assert (Hs : declared_stage 3) by (right; right; left; reflexivity).
  destruct (every_declared_stage_has_an_entry "Nobody" "" [] 3 Hs)
    as [_ [Hget _]].
  exact Hget.
Defined.

(** ** No turn of the loop raises *)

Lemma no_exit_bind {A B : Type} (o : outcome A) (f : A -> outcome B) :
  no_exit o -> (forall a, no_exit (f a)) -> no_exit (o ≫= f).
Proof.
  intros Ho Hf. destruct o; simpl; auto.
Qed.

Ltac no_exit_step :=
  match goal with
  | |- no_exit (Ok _) => exact I
  | |- no_exit Unmodelled => exact I
  | |- no_exit (Raise _) => reflexivity
  | |- no_exit (mbind _ _) => apply no_exit_bind; [|intros ?]
  | |- no_exit (if ?b then _ else _) => destruct b eqn:?
  | |- no_exit (match ?x with _ => _ end) => destruct x eqn:?
  | |- no_exit (let '(_, _) := ?x in _) => destruct x eqn:?
  end.

Ltac no_exit_crush := repeat (first [assumption | no_exit_step]).

Lemma no_exit_getitem {A : Type} (l : list A) (i : Z) : no_exit (getitem l i).
Proof. unfold getitem. no_exit_crush. Qed.

Lemma no_exit_float_of_int (n : Z) : no_exit (float_of_int n).
Proof. unfold float_of_int. now destruct (is_infinity _). Qed.

Lemma no_exit_choices {A : Type} (population : list A) (weights : list Z)
    (r : float) :
  no_exit (choices population weights r).
Proof.
  unfold choices. destruct (negb _); [reflexivity|].
  apply no_exit_bind; [apply no_exit_getitem|]. intros last.
  apply no_exit_bind; [apply no_exit_float_of_int|]. intros converted.
  cbv zeta. destruct (_ <=? _)%float; [reflexivity|].
  destruct (negb _); [reflexivity | apply no_exit_getitem].
Qed.

Lemma no_exit_Actor_select (actor : Actor.t) (s : Z) (r : float) :
  no_exit (Actor_select actor s r).
Proof.
  unfold Actor_select, stages_getitem, StageData_get_random.
  no_exit_crush. apply no_exit_choices.
Qed.

Lemma no_exit_getattr (state : option PlayerState) (name : string) :
  no_exit (getattr state name).
Proof. unfold getattr. no_exit_crush. Qed.

Lemma no_exit_any_negative (state : option PlayerState) (attrs : list string) :
  no_exit (any_negative state attrs).
Proof.
  induction attrs as [|attr attrs IH]; simpl; [exact I|].
  apply no_exit_bind; [apply no_exit_getattr|]. intros v.
  apply no_exit_bind; [destruct v; simpl; auto|]. intros [|]; [exact I | exact IH].
Qed.

Lemma no_exit_sleep_time (s : Z) (u : float) : no_exit (sleep_time s u).
Proof. unfold sleep_time. no_exit_crush. Qed.

Lemma no_exit_repr_str (s : string) : no_exit (repr_str s).
Proof. unfold repr_str. no_exit_crush. Qed.

Lemma no_exit_repr_items (d : list (string * value)) : no_exit (repr_items d).
Proof.
  induction d as [|[k v] d IH]; simpl; [exact I|].
  apply no_exit_bind; [apply no_exit_repr_str|]. intros rk.
  apply no_exit_bind; [destruct v; simpl; [exact I | apply no_exit_repr_str]|].
  intros rv. apply no_exit_bind; [exact IH|]. intros rest. exact I.
Qed.

Lemma no_exit_render_field (d : list (string * value)) (name : string)
    (an : AutoNumber) :
  no_exit (render_field d name an).
Proof.
  unfold render_field, get_argument, str_dict.
  no_exit_crush; apply no_exit_repr_items.
Qed.

Lemma no_exit_scan_format_upto (d : list (string * value)) (n : nat) :
  forall (s : string) (mode : ScanMode) (an : AutoNumber) (out : string),
    (String.length s <= n)%nat -> no_exit (scan_format d s mode an out).
Proof.
  induction n as [|n IH]; intros s mode an out Hlen.
  - destruct s; [|simpl in Hlen; lia]. destruct mode; simpl; auto.
  - destruct s as [|c s]; [destruct mode; simpl; auto|].
    simpl in Hlen.
    assert (Htail : forall mode an out, no_exit (scan_format d s mode an out))
      by (intros; apply IH; lia).
    assert (Htail2 : forall c' s' mode an out,
               s = String c' s' -> no_exit (scan_format d s' mode an out)).
    { intros c' s' mode' an' out' ->. apply IH. simpl in Hlen. lia. }
    simpl. destruct mode.
    + destruct (Ascii.eqb c "{").
      { destruct s as [|c' s']; [reflexivity|].
        destruct (Ascii.eqb c' "{"); [eapply Htail2; reflexivity | apply Htail]. }
      destruct (Ascii.eqb c "}"); [|apply Htail].
      destruct s as [|c' s']; [reflexivity|].
      destruct (Ascii.eqb c' "}"); [eapply Htail2; reflexivity | reflexivity].
    + destruct (Ascii.eqb c "{"); [reflexivity|].
      destruct (Ascii.eqb c "["); [apply Htail|].
      destruct (Ascii.eqb c "!" || Ascii.eqb c ":"); [exact I|].
      destruct (Ascii.eqb c "}"); [|apply Htail].
      pose proof (no_exit_render_field d name an) as Hfield.
      destruct (render_field d name an) as [[an' text]| |];
        [apply Htail | exact Hfield | exact I].
    + destruct (Ascii.eqb c "]"); apply Htail.
Qed.

Lemma no_exit_str_format (text : string) (d : list (string * value)) :
  no_exit (str_format text d).
Proof.
  unfold str_format. eapply no_exit_scan_format_upto. reflexivity.
Qed.

Lemma no_exit_Template_to_embed (tpl : Template.t) (player : Player.t)
    (actor : Actor.t) :
  no_exit (Template_to_embed tpl player actor).
Proof.
  unfold Template_to_embed, Template_format.
  destruct (Player.state player); [|reflexivity].
  apply no_exit_bind; [apply no_exit_getattr|]. intros v.
  apply no_exit_bind; [apply no_exit_str_format|]. intros text. exact I.
Qed.

Lemma no_exit_choice_buttons (items : list (string * Consequence)) :
  no_exit (choice_buttons items).
Proof. destruct items; simpl; auto. Qed.

Lemma never_exits_ret {A : Type} (a : A) : never_exits (mret a : M A).
Proof. intros w. exact I. Qed.

Lemma never_exits_lift {A : Type} (o : outcome A) :
  no_exit o -> never_exits (lift o).
Proof. intros Ho w. exact Ho. Qed.

Lemma never_exits_get : never_exits get_game.
Proof. intros w. exact I. Qed.

Lemma never_exits_emit (e : Event) : never_exits (emit e).
Proof. intros w. exact I. Qed.

Lemma never_exits_bind {A B : Type} (m : M A) (f : A -> M B) :
  never_exits m -> (forall a, never_exits (f a)) -> never_exits (m ≫= f).
Proof.
  intros Hm Hf w. unfold mbind, M_bind. specialize (Hm w).
  destruct (m w) as [[a|e|] w']; simpl in *; auto. apply Hf.
Qed.

Lemma never_exits_Template_ui (tpl : Template.t) (player : Player.t)
    (actor : Actor.t) :
  never_exits (Template_ui tpl player actor).
Proof.
  destruct tpl; unfold Template_ui, await, send_message.
  - apply never_exits_bind;
      [apply never_exits_lift, no_exit_Template_to_embed|].
    intros embed. apply never_exits_emit.
  - apply never_exits_bind;
      [apply never_exits_lift, no_exit_choice_buttons|].
    intros buttons. apply never_exits_bind;
      [apply never_exits_lift, no_exit_Template_to_embed|].
    intros embed. apply never_exits_emit.
Qed.

Lemma never_exits_Actor_send (actor : Actor.t) (target : Player.t) (r : float) :
  never_exits (Actor_send actor target r).
Proof.
  unfold Actor_send, await.
  apply never_exits_bind; [apply never_exits_get|]. intros game.
  apply never_exits_bind; [apply never_exits_lift, no_exit_Actor_select|].
  intros tpl. apply never_exits_Template_ui.
Qed.

Lemma never_exits_Game_tick (death_embed : Player.t -> outcome Embed)
    (player : Player.t) (d : Draws) :
  never_exits (Game_tick death_embed player d).
Proof.
  unfold Game_tick, await, asyncio_sleep.
  apply never_exits_bind; [apply never_exits_get|]. intros self.
  apply never_exits_bind; [apply never_exits_lift, no_exit_any_negative|].
  intros lost. apply never_exits_bind.
  { destruct lost; [intros w; exact I | apply never_exits_ret]. }
  intros _. apply never_exits_bind; [apply never_exits_get|]. intros self'.
  apply never_exits_bind; [apply never_exits_lift, no_exit_sleep_time|].
  intros t. apply never_exits_bind; [apply never_exits_emit|].
  intros _. apply never_exits_Actor_send.
Qed.

(** [gather] hands every exception of a tick back as a result. *)
Lemma gather_ticks_never_raises (death_embed : Player.t -> outcome Embed)
    (players : list Player.t) (draws : Z -> Draws) (w : World) (e : exn) :
  fst (gather_ticks death_embed players draws w) <> Raise e.
Proof.
  revert w. induction players as [|p ps IH]; intros w; simpl.
  - discriminate.
  - unfold mbind, M_bind, capture.
    pose proof (never_exits_Game_tick death_embed p
                  (draws (user_id (Player.ctx p))) w) as Htick.
    destruct (Game_tick death_embed p (draws (user_id (Player.ctx p))) w)
      as [[[]|e'|] w']; simpl in *.
    + specialize (IH w').
      destruct (gather_ticks death_embed ps draws w') as [[rs|e'|] w''];
        simpl in *; [discriminate | exact IH | discriminate].
    + rewrite Htick. specialize (IH w').
      destruct (gather_ticks death_embed ps draws w') as [[rs|e''|] w''];
        simpl in *; [discriminate | exact IH | discriminate].
    + discriminate.
Qed.

Lemma loop_iteration_never_raises (death_embed : Player.t -> outcome Embed)
    (error_embed : exn -> Embed) (o : Observation) (w : World) (e : exn) :
  stage_invariant (the_game w) ->
  fst (loop_iteration death_embed error_embed o w) <> Raise e.
Proof.
  intros [Hthr Hs]. unfold loop_iteration.
  unfold mbind at 1. unfold M_bind.
  destruct (advance_stage_declared w (game_time o) Hthr Hs) as [-> _].
  match goal with |- context [if ?b then ?x else w] =>
    generalize (if b then x else w) end.
  intros w1.
  unfold mbind at 1. unfold M_bind, get_game, try_except_Exception, await.
  unfold mbind, M_bind.
  pose proof (gather_ticks_never_raises death_embed
                (Dict.values (Game.players (the_game w1))) (draws o) w1) as Hg.
  destruct (gather_ticks death_embed _ (draws o) w1) as [[rs|e'|] w2];
    simpl in *; [discriminate | | discriminate].
  exfalso. now apply (Hg e').
Qed.

(** C6. An actor whose pool for a declared stage is empty: selecting a
    template for that stage raises [IndexError] (the failure of
    [random.choices] on an empty population, the spec's EmptyPoolError).
    A tick that draws this actor, for a player whose loss test returns,
    sleeps, sends nothing and ends with that exception; [gather] keeps
    the exception as the result of the tick; and a turn of the loop
    raises nothing, whatever its ticks do. *)
Theorem empty_pool_fails_the_tick_not_the_loop
    (death_embed : Player.t -> outcome Embed) (error_embed : exn -> Embed)
    (name picture : string) (groups : list StageGroup.t) (s : Z) :
  declared_stage s ->
  collect_templates s groups [] = [] ->
  let actor := Actor_init name picture groups in
  (forall r, Actor_select actor s r = Raise IndexError)
  /\ (forall w player d lost,
        Game.stage (the_game w) = s ->
        character d = actor ->
        any_negative (Player.state player) (Game.values_to_check (the_game w))
        = Ok lost ->
        exists t,
          let w' := {| the_game := the_game w; events := events w ++ [Sleep t] |} in
          Game_tick death_embed player d w = (Raise IndexError, w')
          /\ capture (Game_tick death_embed player d) w = (Ok (Raise IndexError), w'))
  /\ (forall w o e,
        stage_invariant (the_game w) ->
        fst (loop_iteration death_embed error_embed o w) <> Raise e).
Proof.
  intros Hs Hpool actor.
  assert (Hsel : forall r, Actor_select actor s r = Raise IndexError).
  { intros r. unfold Actor_select, stages_getitem, actor. simpl.
    rewrite cast_stages_lookup by exact Hs. rewrite Hpool. reflexivity. }
  split; [exact Hsel|]. split.
  - intros w player d lost Hw Hd Hlost.
    assert (Hsleep : exists t, sleep_time s (sleep_draw d) = Ok t).
    { unfold declared_stage, total_stages in Hs. simpl in Hs.
      destruct Hs as [<-|[<-|[<-|[]]]]; eexists; reflexivity. }
    destruct Hsleep as [t Ht]. exists t. cbv zeta.
    assert (Htick : Game_tick death_embed player d w
                    = (Raise IndexError,
                       {| the_game := the_game w; events := events w ++ [Sleep t] |})).
    { unfold Game_tick, Actor_send. unfold_M. rewrite Hlost.
      destruct lost; simpl; rewrite Hw, Ht, Hd, Hsel; reflexivity. }
    split; [exact Htick|]. unfold capture. rewrite Htick. reflexivity.
  - intros w o e Hinv. now apply loop_iteration_never_raises.
Qed.

(** C6 on the actor with a template for stage 1 only, in the game of two
    players once it is at stage 2: the tick of player 2 ends with
    [IndexError] after its sleep, and the turn of the loop at 5 minutes
    returns. *)
Lemma empty_pool_fails_the_tick_not_the_loop_witness :
  let w := {| the_game := Game.with_stage 2 game_of_two; events := [] |} in
  let player := {| Player.ctx := ctx_of 20 2; Player.state := Some atlantis;
                   Player.game := "g" |} in
  let d := {| character := early_herald; sleep_draw := 0; choice_draw := 0 |} in
  (exists t,
     Game_tick no_death_embed player d w
     = (Raise IndexError,
        {| the_game := Game.with_stage 2 game_of_two; events := [Sleep t] |}))
  /\ fst (loop_iteration no_death_embed plain_error_embed
            {| game_time := 5; draws := fun _ => d |} w) = Ok tt.
Proof.
  cbv zeta.
  assert (Hs : declared_stage 2) by (right; left; reflexivity).
  assert (Hpool : collect_templates 2
            [StageGroup_init (AStage 1) [Template_init "The harvest was good."]] []
          = []) by reflexivity.
  destruct (empty_pool_fails_the_tick_not_the_loop no_death_embed
              plain_error_embed "Herald" "herald.png"
              [StageGroup_init (AStage 1) [Template_init "The harvest was good."]]
              2 Hs Hpool) as [_ [Htick _]].
  split.
  - destruct (Htick {| the_game := Game.with_stage 2 game_of_two; events := [] |}
                {| Player.ctx := ctx_of 20 2; Player.state := Some atlantis;
                   Player.game := "g" |}
                {| character := early_herald; sleep_draw := 0; choice_draw := 0 |}
                false eq_refl eq_refl eq_refl) as [t [Ht _]].
    exists t. exact Ht.
  - reflexivity.
Defined.

(** ** Named fields never render *)

Lemma append_cons (c : ascii) (s t : string) :
  String c s +:+ t = String c (s +:+ t).
Proof. reflexivity. Qed.

Lemma append_empty_l (t : string) : "" +:+ t = t.
Proof. reflexivity. Qed.

Lemma append_empty_r (s : string) : s +:+ "" = s.
Proof.
  induction s as [|c s IH]; [reflexivity|].
  rewrite append_cons. f_equal. exact IH.
Qed.

Lemma snoc_append (s : string) (c : ascii) (t : string) :
  snoc s c +:+ t = s +:+ String c t.
Proof.
  unfold snoc. induction s as [|c' s IH].
  - reflexivity.
  - rewrite !append_cons. f_equal. exact IH.
Qed.


(** Text without braces is copied to the output. *)
Lemma scan_format_text (d : list (string * value)) (text rest : string)
    (an : AutoNumber) (out : string) :
  string_forallb not_brace text = true ->
  scan_format d (text +:+ rest) InText an out
  = scan_format d rest InText an (out +:+ text).
Proof.
  revert out. induction text as [|c text IH]; intros out Hplain.
  - now rewrite append_empty_l, append_empty_r.
  - simpl in Hplain. apply andb_true_iff in Hplain as [Hc Hplain].
    unfold not_brace in Hc. apply negb_true_iff, orb_false_iff in Hc as [Ho Hcl].
    rewrite append_cons. simpl. rewrite Ho, Hcl.
    rewrite IH by assumption. now rewrite snoc_append.
Qed.





(** A text without braces renders as itself. *)
Lemma str_format_without_braces (d : list (string * value)) (text : string) :
  string_forallb not_brace text = true -> str_format text d = Ok text.
Proof.
  intros Htext. unfold str_format.
  rewrite <- (append_empty_r text) at 1.
  rewrite scan_format_text by exact Htext. reflexivity.
Qed.

(** [death_player], were it awaited, would not remove the player
    either: its call of [remove_player] is not awaited. *)
Lemma keeps_game_Game_death_player (death_embed : Player.t -> outcome Embed)
    (dead_player : Player.t) :
  keeps_game (Game_death_player death_embed dead_player).
Proof.
  unfold Game_death_player, await. repeat keeps_game_step.
Qed.

(** The game the constructor builds satisfies the invariant of the loop,
    with any players in it. *)
Lemma Game_init_invariant (id : GameID) (sampled : float) (players : Dict.t Player.t) :
  stage_invariant (Game.with_players players (Game_init id sampled)).
Proof. split; [reflexivity | left; reflexivity]. Qed.

(** ** The tick of a player who has lost *)

Lemma speaks_only_to_ret {A : Type} (c : SlashContext) (a : A) :
  speaks_only_to c (mret a : M A).
Proof. intros w. exists []. split; [now rewrite app_nil_r | constructor]. Qed.

Lemma speaks_only_to_lift {A : Type} (c : SlashContext) (o : outcome A) :
  speaks_only_to c (lift o).
Proof. intros w. exists []. split; [now rewrite app_nil_r | constructor]. Qed.

Lemma speaks_only_to_get (c : SlashContext) : speaks_only_to c get_game.
Proof. intros w. exists []. split; [now rewrite app_nil_r | constructor]. Qed.

Lemma speaks_only_to_emit (c : SlashContext) (e : Event) :
  sleep_or_sent_to c e -> speaks_only_to c (emit e).
Proof. intros He w. exists [e]. split; [reflexivity | now repeat constructor]. Qed.

Lemma speaks_only_to_bind {A B : Type} (c : SlashContext) (m : M A)
    (f : A -> M B) :
  speaks_only_to c m -> (forall a, speaks_only_to c (f a)) ->
  speaks_only_to c (m ≫= f).
Proof.
  intros Hm Hf w. unfold mbind, M_bind.
  destruct (Hm w) as [new1 [E1 F1]].
  destruct (m w) as [[a|e|] w1]; simpl in *; try (exists new1; now split).
  destruct (Hf a w1) as [new2 [E2 F2]].
  exists (new1 ++ new2). split.
  - now rewrite E2, E1, app_assoc.
  - apply Forall_app. now split.
Qed.

Lemma speaks_only_to_Template_ui (tpl : Template.t) (player : Player.t)
    (actor : Actor.t) :
  speaks_only_to (Player.ctx player) (Template_ui tpl player actor).
Proof.
  destruct tpl; unfold Template_ui, await, send_message;
    repeat (apply speaks_only_to_bind; [apply speaks_only_to_lift | intros ?]);
    now apply speaks_only_to_emit.
Qed.

Lemma speaks_only_to_Game_tick (death_embed : Player.t -> outcome Embed)
    (player : Player.t) (d : Draws) :
  speaks_only_to (Player.ctx player) (Game_tick death_embed player d).
Proof.
  unfold Game_tick, Actor_send, await, asyncio_sleep.
  apply speaks_only_to_bind; [apply speaks_only_to_get | intros self].
  apply speaks_only_to_bind; [apply speaks_only_to_lift | intros lost].
  apply speaks_only_to_bind.
  { destruct lost; [|apply speaks_only_to_ret].
    intros w. exists []. split; [now rewrite app_nil_r | constructor]. }
  intros _.
  apply speaks_only_to_bind; [apply speaks_only_to_get | intros self'].
  apply speaks_only_to_bind; [apply speaks_only_to_lift | intros t].
  apply speaks_only_to_bind; [now apply speaks_only_to_emit | intros _].
  apply speaks_only_to_bind; [apply speaks_only_to_get | intros game].
  apply speaks_only_to_bind; [apply speaks_only_to_lift | intros tpl].
  apply speaks_only_to_Template_ui.
Qed.

(** C1 on the code. No tick changes the game, so no tick removes a
    player from the player map, and the events a tick adds are its sleep
    and messages to the ticked player, so no tick notifies another
    player. In the game of two players, player 1 has a negative loyalty:
    the tick of player 1 returns normally, player 1 is still in the map,
    and the events are the sleep and the delivery of the drawn template
    to player 1. The call of [death_player] is not awaited, and no
    [return] follows it. *)
Theorem tick_of_lost_player_delivers_and_keeps_player :
  (forall death_embed player d w,
     game_after (Game_tick death_embed player d) w = the_game w
     /\ exists new,
          events_after (Game_tick death_embed player d) w = events w ++ new
          /\ Forall (sleep_or_sent_to (Player.ctx player)) new)
  /\ (let player := {| Player.ctx := ctx_of 10 1; Player.state := Some ruined;
                        Player.game := "g" |} in
       let tick := Game_tick no_death_embed player herald_draws in
       Dict.get 1 (Game.players (the_game world_of_two)) = Some player
       /\ any_negative (Player.state player) (Game.values_to_check game_of_two)
          = Ok true
       /\ fst (tick world_of_two) = Ok tt
       /\ Dict.get 1 (Game.players (game_after tick world_of_two)) = Some player
       /\ events_after tick world_of_two =
            [Sleep (10 + uniform (-2) 2 0.5)%float;
             Send (ctx_of 10 1)
               {| title := "Herald of Ruritania";
                  description := "The harvest was good.";
                  color := (0, 0, 255) |}
               None]).
Proof.
  split.
  - intros death_embed player d w. split.
    + apply keeps_game_Game_tick.
    + apply speaks_only_to_Game_tick.
  - cbv zeta. repeat split; reflexivity.
Qed.

(** ** Rendering a template *)



(** ** Reading the token *)

(** C9 on the code: when the environment, with the variables of [.env]
    added if [dotenv] is there, has no [DEFCON_BOT_TOKEN], [get_token]
    returns no token: it logs an error record that names the variable
    and raises [SystemExit] with no argument, whose exit status is 0.
    When the variable is set, its value is returned and nothing is
    logged. *)
Theorem get_token_missing_exits_with_status_zero
    (dotenv : option (gmap string string)) (environ : gmap string string) :
  let merged := match dotenv with
                | Some file => environ ∪ file
                | None => environ
                end in
  match merged !! "DEFCON_BOT_TOKEN" with
  | None =>
      exists rest,
        get_token dotenv environ
        = (Raise (SystemExit None),
           {| level := ERROR; message := token_not_found |} :: rest)
        /\ exit_status (SystemExit None) = 0
        /\ occurs_in "DEFCON_BOT_TOKEN" token_not_found = true
  | Some token => get_token dotenv environ = (Ok token, [])
  end.
Proof.
  unfold get_token. destruct dotenv as [file|]; cbv zeta.
  - destruct ((environ ∪ file) !! "DEFCON_BOT_TOKEN"); [reflexivity|].
    eexists. repeat split; reflexivity.
  - destruct (environ !! "DEFCON_BOT_TOKEN"); [reflexivity|].
    eexists. repeat split; reflexivity.
Qed.

(** * More of the code *)

(** ** Drawing from a pool by weight *)

(** X1. A pool built by [StageData], for any value of [random()]:
    drawing from it raises [IndexError] when it has no template; when it
    has templates, the draw raises [OverflowError], raises [ValueError]
    or returns one of them. It raises [OverflowError] when the total of
    the weights is beyond the floats (a single weight of 2^1024 is), and
    [ValueError] when the total is zero or less; it returns a template
    of the pool when the total is above zero. The two last are stated
    for totals within the 53 bits that a float holds exactly. The check
    of the number of weights never fails, since the weights are read off
    the templates. *)
Theorem get_random_outcomes (templates : list Template.t) (r : float) :
  let total := sum_weights (List.map Template.weight templates) in
  let draw := StageData_get_random (StageData_init templates) r in
  (templates = [] -> draw = Raise IndexError)
  /\ (templates <> [] ->
      draw = Raise OverflowError \/ draw = Raise ValueError
      \/ exists tpl, draw = Ok tpl /\ In tpl templates)
  /\ (templates <> [] -> is_infinity (round_to_float total) = true ->
      draw = Raise OverflowError)
  /\ (templates <> [] -> - 2 ^ 53 < total <= 0 -> draw = Raise ValueError)
  /\ (0 < total < 2 ^ 53 -> exists tpl, draw = Ok tpl /\ In tpl templates)
  /\ StageData_get_random
       (StageData_init [Template.Plain "heavy" (2 ^ 1024)]) r
     = Raise OverflowError.
Proof.
  cbv zeta. unfold StageData_get_random, StageData_init. simpl.
  split; [intros ->; reflexivity|].
  assert (Hcases := choices_cases templates (List.map Template.weight templates) r
                      (length_map _ _)).
  split; [|split; [|split; [|split]]].
  - intros Hne. rewrite Hcases.
    destruct templates as [|t ts]; [congruence|].
    unfold float_of_int. destruct (is_infinity _); [now left|].
    cbn [mbind outcome_bind]. cbv zeta.
    destruct (_ <=? _)%float; [right; now left|].
    destruct (negb _); [right; now left|].
    right. right. now apply getitem_bisect.
  - intros Hne Hinf. rewrite Hcases.
    destruct templates as [|t ts]; [congruence|].
    unfold float_of_int. now rewrite Hinf.
  - intros Hne Htotal. rewrite Hcases.
    destruct templates as [|t ts]; [congruence|].
    destruct (Z.eq_dec (sum_weights (List.map Template.weight (t :: ts))) 0)
      as [->|Hnonzero]; [reflexivity|].
    destruct (float_of_int_negative
                (sum_weights (List.map Template.weight (t :: ts))))
      as (-> & Hadd & Hleb); [lia|].
    cbn [mbind outcome_bind]. cbv zeta. now rewrite Hadd, Hleb.
  - intros Htotal. apply choices_returns; [apply length_map | exact Htotal].
  - vm_compute. reflexivity.
Qed.

(** X1 on a pool of two templates of weights 100 and 0, and on a pool
    of one template of weight 0. *)
Lemma get_random_outcomes_witness :
  (exists tpl,
     StageData_get_random
       (StageData_init [Template.Plain "likely" 100; Template.Plain "never" 0])
       0.99 = Ok tpl
     /\ In tpl [Template.Plain "likely" 100; Template.Plain "never" 0])
  /\ StageData_get_random (StageData_init [Template.Plain "never" 0]) 0.99
     = Raise ValueError.
Proof.
  destruct (get_random_outcomes
              [Template.Plain "likely" 100; Template.Plain "never" 0] 0.99)
    as (_ & _ & _ & _ & Hreturns & _).
  destruct (get_random_outcomes [Template.Plain "never" 0] 0.99)
    as (_ & _ & _ & Hzero & _).
  split.
  - apply Hreturns. split; reflexivity.
  - apply Hzero; [discriminate | split; [reflexivity | discriminate]].
Defined.

(** X2. A pool whose weights are not negative and sum to more than zero
    (and to less than 2^53, so that the total is a float exactly): the
    draw returns the template at the first position whose cumulative
    weight is above the float [random() * total], the product being
    rounded; when no position before the last one is, it returns the
    last template. *)
Theorem get_random_draws_by_weight (templates : list Template.t) (r : float) :
  let weights := List.map Template.weight templates in
  let total := sum_weights weights in
  let x := (r * round_to_float total)%float in
  let above j := float_lt_int x (sum_weights (firstn (S j) weights)) in
  Forall (fun w => 0 <= w) weights ->
  0 < total < 2 ^ 53 ->
  (forall n, float_lt_int (round_to_float total) n = (total <? n))
  /\ exists i tpl,
       StageData_get_random (StageData_init templates) r = Ok tpl
       /\ nth_error templates i = Some tpl
       /\ (forall j, (j < i)%nat -> above j = false)
       /\ (forall j, (i <= j < length templates - 1)%nat -> above j = true).
Proof.
  intros weights total x above Hpos Htotal.
  split; [intros n; now apply float_lt_int_round_to_float|].
  unfold StageData_get_random, StageData_init. simpl. fold weights.
  assert (Hlen : length weights = length templates) by apply length_map.
  destruct (choices_small_total templates weights r Hlen Htotal) as [Hne ->].
  fold total. fold x.
  assert (Hn : (0 < length templates)%nat)
    by (destruct templates; [congruence | simpl; lia]).
  assert (Hall : forall j, (j < length weights)%nat ->
            nth j (accumulate weights) 0 = sum_weights (firstn (S j) weights)).
  { intros j Hj. unfold accumulate. rewrite nth_accumulate_from by exact Hj. lia. }
  destruct (bisect_loop_first_above (length templates - 1 - 0)
              (accumulate weights) x 0 (length templates - 1)
              (length templates - 1))
    as (Hrange & Hbelow & Habove).
  - now apply non_decreasing_accumulate.
  - lia.
  - lia.
  - unfold accumulate. rewrite length_accumulate_from. lia.
  - intros j Hj. lia.
  - intros j Hj. lia.
  - fold (bisect (accumulate weights) x 0 (length templates - 1)) in *.
    set (i := bisect (accumulate weights) x 0 (length templates - 1)) in *.
    assert (Hi : (i < length templates)%nat) by lia.
    destruct (nth_error templates i) as [tpl|] eqn:Etpl;
      [|apply nth_error_None in Etpl; lia].
    exists i, tpl. split; [now apply getitem_nat|]. split; [exact Etpl|].
    split; intros j Hj; unfold above; rewrite <- Hall by lia; auto.
Qed.

(** X2 on a pool of two templates of weights 2 and 1, at [random()] =
    0.6666666666666666: the product with the total 3 is the float 2, no
    longer below the first cumulative weight, and the second template is
    drawn. *)
Lemma get_random_draws_by_weight_witness :
  let first := Template.Plain "first" 2 in
  let second := Template.Plain "second" 1 in
  (0.6666666666666666 * round_to_float 3)%float = 2%float
  /\ StageData_get_random (StageData_init [first; second]) 0.6666666666666666
     = Ok second
  /\ exists i tpl,
       StageData_get_random (StageData_init [first; second]) 0.6666666666666666
       = Ok tpl
       /\ nth_error [first; second] i = Some tpl.
Proof.
  cbv zeta.
  destruct (get_random_draws_by_weight
              [Template.Plain "first" 2; Template.Plain "second" 1]
              0.6666666666666666)
    as (_ & i & tpl & Hdraw & Hnth & _).
  - repeat constructor; discriminate.
  - split; reflexivity.
  - split; [reflexivity|]. split; [reflexivity|]. exists i, tpl. auto.
Defined.

(** ** Sending through an actor *)

Lemma cast_stages_lookup_undeclared (groups : list StageGroup.t) (s : Z) :
  ~ declared_stage s -> Actor_cast_stages groups !! s = None.
Proof.
  unfold declared_stage, total_stages, Actor_cast_stages. simpl. intros Hs.
  assert (1 <> s /\ 2 <> s /\ 3 <> s) as (H1 & H2 & H3) by tauto.
  now simplify_map_eq.
Qed.

(** X3. An actor has no entry for a stage that is not declared: for a
    game at such a stage, [Actor.send] raises [KeyError] with that stage
    and sends nothing. *)
Theorem send_at_undeclared_stage_raises_KeyError
    (name picture : string) (groups : list StageGroup.t)
    (target : Player.t) (r : float) (w : World) :
  ~ declared_stage (Game.stage (the_game w)) ->
  Actor_send (Actor_init name picture groups) target r w
  = (Raise (KeyError (KInt (Game.stage (the_game w)))), w).
Proof.
  intros Hs. unfold Actor_send, Actor_select, stages_getitem. unfold_M. simpl.
  now rewrite cast_stages_lookup_undeclared.
Qed.

(** X3 on the herald, in the game of two players put at stage 4. *)
Lemma send_at_undeclared_stage_raises_KeyError_witness :
  let w := {| the_game := Game.with_stage 4 game_of_two; events := [] |} in
  let target := {| Player.ctx := ctx_of 20 2; Player.state := Some atlantis;
                   Player.game := "g" |} in
  Actor_send herald target 0 w = (Raise (KeyError (KInt 4)), w).
Proof.
  cbv zeta.
  apply (send_at_undeclared_stage_raises_KeyError "Herald" "herald.png"
           [StageGroup_init AAll [Template_init "The harvest was good."]]).
  unfold declared_stage, total_stages. simpl. intros [H|[H|[H|[]]]]; discriminate H.
Defined.

(** X4. A choice template with at least one choice cannot be shown:
    building its first button raises [AttributeError], before the embed
    is made and before anything is sent. So when the template an actor
    draws is such a one, [Actor.send] raises and the world is as before,
    whoever the target is. *)
Theorem send_of_choice_template_raises
    (actor : Actor.t) (target : Player.t) (r : float) (w : World)
    (text : string) (weight : Z) (choice : string * Consequence)
    (choices : list (string * Consequence)) (condition : option Condition) :
  Actor_select actor (Game.stage (the_game w)) r
  = Ok (Template.Choice text weight (choice :: choices) condition) ->
  Actor_send actor target r w = (Raise (AttributeError "keys"), w)
  /\ Template_ui (Template.Choice text weight (choice :: choices) condition)
       target actor w
     = (Raise (AttributeError "keys"), w).
Proof.
  intros Hsel. unfold Actor_send. unfold_M. rewrite Hsel. split; reflexivity.
Qed.

(** X4 on an actor whose only template offers two choices. *)
Lemma send_of_choice_template_raises_witness :
  let question :=
    Template.Choice "Raise the taxes?" 100
      [("Yes", [("money", VInt 10)]); ("No", [("loyalty", VInt 5)])] None in
  let actor := Actor_init "Treasurer" "" [StageGroup_init AAll [question]] in
  let target := {| Player.ctx := ctx_of 20 2; Player.state := Some atlantis;
                   Player.game := "g" |} in
  Actor_send actor target 0 world_of_two
  = (Raise (AttributeError "keys"), world_of_two).
Proof.
  cbv zeta.
  destruct (send_of_choice_template_raises
              (Actor_init "Treasurer" ""
                 [StageGroup_init AAll
                    [Template.Choice "Raise the taxes?" 100
                       [("Yes", [("money", VInt 10)]); ("No", [("loyalty", VInt 5)])]
                       None]])
              {| Player.ctx := ctx_of 20 2; Player.state := Some atlantis;
                 Player.game := "g" |}
              0%float world_of_two "Raise the taxes?" 100
              ("Yes", [("money", VInt 10)]) [("No", [("loyalty", VInt 5)])] None
              eq_refl) as [Hsend _].
  exact Hsend.
Defined.

(** ** More on rendering *)

(** X5. A template whose text has no brace renders as its text, for
    every state. *)
Theorem format_without_braces_is_the_text (tpl : Template.t) (state : PlayerState) :
  string_forallb not_brace (Template.text tpl) = true ->
  Template_format tpl state = Ok (Template.text tpl).
Proof.
  intros Htext. unfold Template_format. now apply str_format_without_braces.
Qed.

(** X5 on the template of the herald and the state [ruined]. *)
Lemma format_without_braces_is_the_text_witness :
  Template_format (Template_init "The harvest was good.") ruined
  = Ok "The harvest was good.".
Proof.
  apply (format_without_braces_is_the_text
           (Template_init "The harvest was good.") ruined).
  reflexivity.
Defined.

Lemma append_assoc3 (s t u : string) : (s +:+ t) +:+ u = s +:+ t +:+ u.
Proof.
  induction s as [|c s IH]; [reflexivity|].
  rewrite !append_cons. f_equal. exact IH.
Qed.







(** X7. In a text that has no other brace, a doubled brace renders as
    one brace, and a closing brace that stands alone makes the rendering
    raise [ValueError]. *)
Theorem format_braces (state : PlayerState) (before after : string) (weight : Z) :
  string_forallb not_brace before = true ->
  string_forallb not_brace after = true ->
  Template_format (Template.Plain (before +:+ "{{" +:+ after) weight) state
  = Ok (before +:+ "{" +:+ after)
  /\ Template_format (Template.Plain (before +:+ "}}" +:+ after) weight) state
     = Ok (before +:+ "}" +:+ after)
  /\ Template_format (Template.Plain (before +:+ "}" +:+ after) weight) state
     = Raise ValueError.
Proof.
  intros Hbefore Hafter. unfold Template_format, str_format, asdict. simpl.
  split; [|split];
    rewrite (scan_format_text state before) by exact Hbefore;
    rewrite append_empty_l.
  - change ("{{" +:+ after) with (String "{" (String "{" after)).
    cbn [scan_format Ascii.eqb Bool.eqb].
    rewrite <- (append_empty_r after) at 1.
    rewrite (scan_format_text state after "") by exact Hafter.
    cbn [scan_format]. now rewrite snoc_append.
  - change ("}}" +:+ after) with (String "}" (String "}" after)).
    cbn [scan_format Ascii.eqb Bool.eqb].
    rewrite <- (append_empty_r after) at 1.
    rewrite (scan_format_text state after "") by exact Hafter.
    cbn [scan_format]. now rewrite snoc_append.
  - change ("}" +:+ after) with (String "}" after).
    cbn [scan_format Ascii.eqb Bool.eqb].
    destruct after as [|c after]; [reflexivity|].
    simpl in Hafter. apply andb_true_iff in Hafter as [Hc _].
    unfold not_brace in Hc. apply negb_true_iff, orb_false_iff in Hc as [_ Hc].
    now rewrite Hc.
Qed.

(** X7 on a text with a doubled brace and on one with a stray closing brace. *)
Lemma format_braces_witness :
  Template_format (Template.Plain "An open {{ stays" 100) atlantis
  = Ok "An open { stays"
  /\ Template_format (Template.Plain "An open } stays" 100) atlantis
     = Raise ValueError.
Proof.
  destruct (format_braces atlantis "An open " " stays" 100 eq_refl eq_refl)
    as (Hopen & _ & Hstray).
  split; [exact Hopen | exact Hstray].
Defined.

(** ** More on the tick *)

Lemma any_negative_not_negative (state : PlayerState) (attrs after : list string) :
  Forall (attribute_not_negative state) attrs ->
  any_negative (Some state) (attrs ++ after) = any_negative (Some state) after.
Proof.
  induction 1 as [|attr attrs (n & Hn & Hpos) _ IH]; [reflexivity|].
  simpl. rewrite Hn. simpl.
  destruct (n <? 0) eqn:E; [apply Z.ltb_lt in E; lia | exact IH].
Qed.

(** X8. The loss test reads the tracked attributes in order and stops
    at the first negative one. After attributes that are numbers not
    below zero: a negative attribute makes the test true, whatever comes
    after it, even an attribute the state does not have; an attribute
    the state does not have raises [AttributeError] with its name; and
    when no attribute is left the test is false. *)
Theorem any_negative_stops_at_first (state : PlayerState)
    (before : list string) (attr : string) (after : list string) :
  Forall (attribute_not_negative state) before ->
  (attribute_negative state attr ->
   any_negative (Some state) (before ++ attr :: after) = Ok true)
  /\ (field_lookup attr state = None ->
      any_negative (Some state) (before ++ attr :: after)
      = Raise (AttributeError attr))
  /\ any_negative (Some state) before = Ok false.
Proof.
  intros Hbefore. split; [|split].
  - intros (n & Hn & Hneg). rewrite any_negative_not_negative by exact Hbefore.
    simpl. rewrite Hn. simpl.
    destruct (n <? 0) eqn:E; [reflexivity | apply Z.ltb_ge in E; lia].
  - intros Hmissing. rewrite any_negative_not_negative by exact Hbefore.
    simpl. now rewrite Hmissing.
  - rewrite <- (app_nil_r before).
    now rewrite any_negative_not_negative by exact Hbefore.
Qed.

(** X8 on the state [ruined], whose loyalty is negative, with an
    attribute it does not have after it; and on [atlantis]. *)
Lemma any_negative_stops_at_first_witness :
  any_negative (Some ruined) ["money"; "loyalty"; "army"] = Ok true
  /\ any_negative (Some atlantis) ["loyalty"; "money"; "security"; "world_opinion"]
     = Ok false.
Proof.
  split.
  - destruct (any_negative_stops_at_first ruined ["money"] "loyalty" ["army"])
      as [Hneg _].
    + repeat constructor. exists 20. split; [reflexivity | lia].
    + apply Hneg. exists (-5). split; [reflexivity | lia].
  - destruct (any_negative_stops_at_first atlantis
                ["loyalty"; "money"; "security"; "world_opinion"] "army" [])
      as (_ & _ & Hnone).
    + repeat constructor; eexists; (split; [reflexivity | lia]).
    + exact Hnone.
Defined.

(** X9. The tick of a player who has no state yet (a player made and
    not registered) raises [AttributeError] with the first tracked
    attribute, before any sleep and with nothing sent. *)
Theorem tick_of_unregistered_player_raises
    (death_embed : Player.t -> outcome Embed) (player : Player.t) (d : Draws)
    (w : World) (attr : string) (attrs : list string) :
  Player.state player = None ->
  Game.values_to_check (the_game w) = attr :: attrs ->
  Game_tick death_embed player d w = (Raise (AttributeError attr), w).
Proof.
  intros Hstate Hattrs. unfold Game_tick. unfold_M.
  rewrite Hstate, Hattrs. reflexivity.
Qed.

(** X9 on a player made for user 3 and not registered. *)
Lemma tick_of_unregistered_player_raises_witness :
  Game_tick no_death_embed (Player_init (ctx_of 30 3) "g") herald_draws world_of_two
  = (Raise (AttributeError "loyalty"), world_of_two).
Proof.
  apply (tick_of_unregistered_player_raises no_death_embed
           (Player_init (ctx_of 30 3) "g") herald_draws world_of_two
           "loyalty" ["money"; "security"; "world_opinion"]);
    reflexivity.
Defined.

(** X10. The tick of a registered player whose loss test returns, at a
    stage with a sleep time, when the drawn actor gives a plain template
    with no brace in its text: the tick returns, and what it adds to the
    events is the sleep and then one message to the player, titled with
    the actor and the nation and carrying the text. This is so whether
    the loss test found a negative attribute or not. *)
Theorem tick_sleeps_then_delivers
    (death_embed : Player.t -> outcome Embed) (player : Player.t) (d : Draws)
    (w : World) (state : PlayerState) (nation : value) (lost : bool) (t : float)
    (text : string) (weight : Z) :
  Player.state player = Some state ->
  any_negative (Some state) (Game.values_to_check (the_game w)) = Ok lost ->
  field_lookup "nation_name" state = Some nation ->
  sleep_time (Game.stage (the_game w)) (sleep_draw d) = Ok t ->
  Actor_select (character d) (Game.stage (the_game w)) (choice_draw d)
  = Ok (Template.Plain text weight) ->
  string_forallb not_brace text = true ->
  Game_tick death_embed player d w
  = (Ok tt,
     {| the_game := the_game w;
        events := events w ++ [Sleep t; delivery (character d) player nation text] |}).
Proof.
  intros Hstate Hlost Hnation Hsleep Hsel Htext.
  unfold Game_tick, Actor_send, Template_ui, Template_to_embed, Template_format.
  unfold_M. rewrite Hstate, Hlost.
  destruct lost; simpl; rewrite Hsleep, Hsel; simpl;
    rewrite Hnation; simpl;
    rewrite str_format_without_braces by exact Htext; simpl;
    unfold emit; simpl; now rewrite <- app_assoc.
Qed.

(** X10 on player 2 of the game of two players, drawing the herald. *)
Lemma tick_sleeps_then_delivers_witness :
  let player := {| Player.ctx := ctx_of 20 2; Player.state := Some atlantis;
                   Player.game := "g" |} in
  exists t,
    Game_tick no_death_embed player herald_draws world_of_two
    = (Ok tt,
       {| the_game := game_of_two;
          events := [Sleep t;
                     delivery herald player (VStr "Atlantis")
                       "The harvest was good."] |}).
Proof.
  cbv zeta. eexists.
  apply (tick_sleeps_then_delivers no_death_embed
           {| Player.ctx := ctx_of 20 2; Player.state := Some atlantis;
              Player.game := "g" |}
           herald_draws world_of_two atlantis (VStr "Atlantis") false
           (10 + uniform (-2) 2 0.5)%float "The harvest was good." 100);
    reflexivity.
Defined.

(** X11. A sleep time is bound at the stages 1, 2 and 3 and at no
    other: there, reading it raises [UnboundLocalError]. When [random()]
    is 0 the sleep lasts 8, 6 and 5 seconds. At the largest value of
    [random()], the float just below 1, it lasts 12, 9.5 and 6.75
    seconds: the sums round to the upper ends of the three ranges, which
    are reached. *)
Theorem sleep_time_reaches_both_ends :
  (forall s u,
     match sleep_time s u with
     | Ok _ => declared_stage s
     | Raise e => ~ declared_stage s /\ e = UnboundLocalError "sleep_time"
     | Unmodelled => False
     end)
  /\ (largest_random <? 1)%float = true
  /\ next_up largest_random = 1%float
  /\ sleep_time 1 0 = Ok 8%float
  /\ sleep_time 1 largest_random = Ok 12%float
  /\ sleep_time 2 0 = Ok 6%float
  /\ sleep_time 2 largest_random = Ok 9.5%float
  /\ sleep_time 3 0 = Ok 5%float
  /\ sleep_time 3 largest_random = Ok 6.75%float.
Proof.
  split; [|repeat split; reflexivity].
  intros s u. unfold sleep_time, declared_stage, total_stages.
  destruct (s =? 1) eqn:E1; [apply Z.eqb_eq in E1; simpl; lia|].
  destruct (s =? 2) eqn:E2; [apply Z.eqb_eq in E2; simpl; lia|].
  destruct (s =? 3) eqn:E3; [apply Z.eqb_eq in E3; simpl; lia|].
  apply Z.eqb_neq in E1, E2, E3. split; [simpl; lia | reflexivity].
Qed.

(** ** Death handling, when it is awaited *)

Lemma for_each_send (embed : Embed) (players : list Player.t) (w : World) :
  for_each players
    (fun player => await (send_message (Player.ctx player) embed None)) w
  = (Ok tt,
     {| the_game := the_game w;
        events := events w
                  ++ List.map (fun player => Send (Player.ctx player) embed None)
                       players |}).
Proof.
  revert w. induction players as [|p ps IH]; intros w; simpl.
  - rewrite app_nil_r. now destruct w.
  - unfold_M. simpl. rewrite IH. simpl. now rewrite <- app_assoc.
Qed.

(** X12. [death_player], run to its end: when the embed is built, it is
    sent once to every player of the map, in the order of the map and
    the dead player included, and the map is what it was: the dead
    player is not removed, since the call of [remove_player] is not
    awaited. When building the embed raises, nothing is sent. *)
Theorem death_player_notifies_and_keeps_all
    (death_embed : Player.t -> outcome Embed) (dead_player : Player.t) (w : World) :
  Game_death_player death_embed dead_player w
  = match death_embed dead_player with
    | Ok embed =>
        (Ok tt,
         {| the_game := the_game w;
            events :=
              events w
              ++ List.map (fun player => Send (Player.ctx player) embed None)
                   (Dict.values (Game.players (the_game w))) |})
    | Raise e => (Raise e, w)
    | Unmodelled => (Unmodelled, w)
    end.
Proof.
  unfold Game_death_player. unfold mbind, M_bind, lift, get_game, not_awaited.
  destruct (death_embed dead_player) as [embed|e|]; try reflexivity.
  rewrite for_each_send. reflexivity.
Qed.

(** ** The loop and its ticks *)








Lemma try_except_Exception_returns {A : Type} (body : M A)
    (handler : exn -> M A) (w : World) :
  (forall e, fst (body w) <> Raise e) ->
  try_except_Exception body handler w = body w.
Proof.
  intros Hbody. unfold try_except_Exception.
  destruct (body w) as [[a|e|] w']; try reflexivity.
  exfalso. now apply (Hbody e).
Qed.

Lemma loop_iteration_without_handler
    (death_embed : Player.t -> outcome Embed) (error_embed : exn -> Embed)
    (o : Observation) (w : World) :
  loop_iteration death_embed error_embed o w
  = (_ ← advance_stage (game_time o);
     self ← get_game;
     _ ← gather_ticks death_embed (Dict.values (Game.players self)) (draws o);
     mret tt) w.
Proof.
  unfold loop_iteration. unfold mbind at 1 5. unfold M_bind.
  destruct (advance_stage (game_time o) w) as [[[]|e|] w1]; try reflexivity.
  unfold mbind at 1 4. unfold M_bind, get_game.
  apply try_except_Exception_returns. intros e.
  unfold await, mbind, M_bind.
  pose proof (gather_ticks_never_raises death_embed
                (Dict.values (Game.players (the_game w1))) (draws o) w1) as Hg.
  destruct (gather_ticks death_embed _ (draws o) w1) as [[rs|e'|] w2];
    simpl in *; [discriminate | | discriminate].
  exfalso. now apply (Hg e').
Qed.

(** X14. The handler of the loop never runs: [gather] hands the
    exceptions of the ticks back as results, so nothing is raised inside
    the [try]. Whatever embed the handler would send, the loop does the
    same, over any turns: no error message is ever sent to the players. *)
Theorem loop_never_sends_the_error_embed
    (death_embed : Player.t -> outcome Embed)
    (error_embed other_error_embed : exn -> Embed)
    (observations : list Observation) (w : World) :
  Game_loop death_embed error_embed observations w
  = Game_loop death_embed other_error_embed observations w.
Proof.
  revert w. induction observations as [|o rest IH]; intros w; simpl.
  - reflexivity.
  - unfold mbind, M_bind.
    rewrite (loop_iteration_without_handler death_embed error_embed).
    rewrite (loop_iteration_without_handler death_embed other_error_embed).
    destruct ((_ ← advance_stage (game_time o); _) w) as [[[]|e|] w1];
      [apply IH | reflexivity | reflexivity].
Qed.

(** X15. Once the elapsed time has reached the total duration, the
    stage test changes nothing: a game observed only from then on keeps
    the stage it has, even stage 1. *)
Theorem stage_is_final_after_max_time
    (death_embed : Player.t -> outcome Embed) (error_embed : exn -> Embed)
    (observations : list Observation) (w : World) :
  stage_invariant (the_game w) ->
  Forall (fun o => (Game.max_time (the_game w) <=? game_time o)%float = true)
    observations ->
  game_after (Game_loop death_embed error_embed observations) w = the_game w.
Proof.
  intros Hinv Hlate. revert w Hinv Hlate.
  induction observations as [|o rest IH]; intros w Hinv Hlate; [reflexivity|].
  inversion Hlate as [|? ? Ho Hrest]; subst.
  assert (Hstep : game_after (loop_iteration death_embed error_embed o) w
                  = the_game w).
  { rewrite loop_iteration_game. unfold game_after.
    destruct Hinv as [Hthr Hs].
    destruct (advance_stage_declared w (game_time o) Hthr Hs) as [-> _].
    rewrite (leb_not_ltb _ _ Ho), andb_false_r. reflexivity. }
  unfold game_after in *. simpl. unfold mbind, M_bind.
  destruct (loop_iteration death_embed error_embed o w) as [[[]|e|] w1];
    simpl in *; try exact Hstep.
  rewrite <- Hstep. apply IH; rewrite Hstep; assumption.
Qed.

(** X15 on the game of two players, of total duration 14, observed at
    15 and at 20 minutes: it stays at stage 1. *)
Lemma stage_is_final_after_max_time_witness :
  Game.stage
    (game_after (Game_loop no_death_embed plain_error_embed [observe 15; observe 20])
       world_of_two) = 1.
Proof.
  rewrite (stage_is_final_after_max_time no_death_embed plain_error_embed
             [observe 15; observe 20] world_of_two).
  - reflexivity.
  - apply Game_init_invariant.
  - repeat constructor.
Defined.

(** ** Leaving twice *)

(** X17. Leaving twice: when the identity is in the player map, a
    second [remove_player] for the same user, after the first one
    returned, raises [NotImplementedError] and leaves the map as the
    first one left it. *)
Theorem remove_twice_fails_the_second_time (ctx : SlashContext) (w : World) :
  Dict.get (user_id ctx) (Game.players (the_game w)) <> None ->
  (_ ← Game_remove_player ctx; Game_remove_player ctx) w
  = (Raise NotImplementedError,
     {| the_game :=
          Game.with_players
            (Dict.remove (user_id ctx) (Game.players (the_game w))) (the_game w);
        events := events w |}).
Proof.
  intros Hpresent.
  unfold Game_remove_player, try_except_KeyError, Dict.delitem. unfold_M.
  destruct (Dict.get (user_id ctx) (Game.players (the_game w))) eqn:E;
    [|congruence].
  simpl. rewrite Dict_get_remove_eq. reflexivity.
Qed.

(** X17 on user 1 of the game of two players. *)
Lemma remove_twice_fails_the_second_time_witness :
  fst ((_ ← Game_remove_player (ctx_of 10 1); Game_remove_player (ctx_of 10 1))
         world_of_two)
  = Raise NotImplementedError.
Proof.
  rewrite (remove_twice_fails_the_second_time (ctx_of 10 1) world_of_two).
  - reflexivity.
  - discriminate.
Defined.

(** ** The developer mode and the entry point *)

Lemma get_developer_mode_value (argv : list string) :
  get_developer_mode argv
  = Ok match nth_error argv 1 with
       | Some arg => String.eqb arg "--dev"
       | None => false
       end.
Proof.
  unfold get_developer_mode.
  destruct (nth_error argv 1) as [arg|] eqn:E.
  - change 1 with (Z.of_nat 1). now rewrite (getitem_nat argv 1 arg E).
  - destruct argv as [|a [|b rest]]; [reflexivity | reflexivity | discriminate E].
Qed.

(** X20. [get_developer_mode] never raises: it is true exactly when
    the second element of [argv] is the text "--dev", and false when
    there is no second element. *)
Theorem developer_mode_is_the_second_argument (argv : list string) :
  exists dev,
    get_developer_mode argv = Ok dev
    /\ (dev = true <-> nth_error argv 1 = Some "--dev").
Proof.
  rewrite get_developer_mode_value. eexists. split; [reflexivity|].
  destruct (nth_error argv 1) as [arg|].
  - rewrite String.eqb_eq. split; [now intros -> | now intros [= ->]].
  - split; discriminate.
Qed.

(** X21. The script, the calls on the bot being taken to return: the
    extension of the game is always loaded, the reloading extension is
    loaded exactly in developer mode, and the bot is started exactly
    when there is a token, with that token; with no token the script
    ends with the [SystemExit] of [get_token], after the extensions were
    loaded and without starting the bot. *)
Theorem bot_starts_only_with_a_token (argv : list string)
    (dotenv : option (gmap string string)) (environ : gmap string string) :
  let merged := match dotenv with
                | Some file => environ ∪ file
                | None => environ
                end in
  let result := fst (fst (main argv dotenv environ)) in
  let calls := snd (fst (main argv dotenv environ)) in
  In (load_extension "src.game_start") calls
  /\ (In (load_extension "interactions.ext.jurigged") calls
      <-> nth_error argv 1 = Some "--dev")
  /\ (forall token,
        In (start token) calls <-> merged !! "DEFCON_BOT_TOKEN" = Some token)
  /\ (merged !! "DEFCON_BOT_TOKEN" = None -> result = Raise (SystemExit None)).
Proof.
  cbv zeta. unfold main.
  rewrite get_developer_mode_value.
  assert (Hdev : nth_error argv 1 = Some "--dev"
                 <-> match nth_error argv 1 with
                     | Some arg => String.eqb arg "--dev"
                     | None => false
                     end = true).
  { destruct (nth_error argv 1) as [arg|].
    - rewrite String.eqb_eq. split; [now intros [= ->] | now intros ->].
    - split; discriminate. }
  rewrite Hdev. clear Hdev.
  generalize (match nth_error argv 1 with
              | Some arg => String.eqb arg "--dev"
              | None => false
              end).
  intros dev.
  unfold get_token.
  destruct dotenv as [file|];
    match goal with
    | |- context [?m !! "DEFCON_BOT_TOKEN"] =>
        destruct (m !! "DEFCON_BOT_TOKEN") as [token|]
    end;
    destruct dev; simpl;
    (split; [tauto|]);
    (split;
     [split;
      [intros H; first [reflexivity | exfalso; intuition discriminate]
      | intros H; first [discriminate H | tauto]]|]);
    (split;
     [intros token'; split;
      [intros H; intuition (try discriminate; try congruence)
      | intros H; first [discriminate H | injection H as ->; tauto]]
     | intros H; first [reflexivity | discriminate H]]).
Qed.

(** X21 with no argument and no token. *)
Lemma bot_starts_only_with_a_token_witness :
  snd (fst (main ["main.py"] None ∅)) = [load_extension "src.game_start"]
  /\ fst (fst (main ["main.py"] None ∅)) = Raise (SystemExit None).
Proof.
  destruct (bot_starts_only_with_a_token ["main.py"] None ∅)
    as (_ & _ & _ & Hexit).
  split; [reflexivity | apply Hexit; reflexivity].
Defined.

(** ** Loading the characters *)

Lemma get_characters_loop_gathered
    (import_character : string -> string -> outcome (option Actor.t))
    (paths : list Path.t) (characters : list Actor.t) (records : list LogRecord) :
  Forall (fun path => gathered (import_character (module_name path) (str_path path)))
    paths ->
  get_characters_loop import_character paths characters records
  = (Ok (characters ++ characters_found import_character paths),
     records ++ failures_logged import_character paths).
Proof.
  intros Hall. revert characters records.
  induction Hall as [|path paths Hpath _ IH]; intros characters records; simpl.
  - now rewrite !app_nil_r.
  - destruct (import_character (module_name path) (str_path path))
      as [[character|]|e|]; simpl in *.
    + rewrite IH. now rewrite <- app_assoc.
    + apply IH.
    + rewrite Hpath, IH. now rewrite <- app_assoc.
    + contradiction.
Qed.

(** X22. Loading the characters of a list of files. When every import
    returns or raises an exception of class [Exception],
    [get_characters] returns: its result is the characters of the files
    that have one, in the order of the files, and one error record is
    logged for each file whose import raised, the other files being
    loaded all the same. An exception that is not of class [Exception]
    (a file that calls [exit()]) is not caught: it ends the loading, and
    no list of characters is returned. *)
Theorem get_characters_skips_failed_files
    (import_character : string -> string -> outcome (option Actor.t))
    (paths : list Path.t) :
  Forall (fun path => gathered (import_character (module_name path) (str_path path)))
    paths ->
  get_characters import_character paths
  = (Ok (characters_found import_character paths),
     failures_logged import_character paths)
  /\ (forall path after e,
        import_character (module_name path) (str_path path) = Raise e ->
        is_Exception e = false ->
        get_characters import_character (paths ++ path :: after)
        = (Raise e, failures_logged import_character paths)).
Proof.
  intros Hall. split.
  - unfold get_characters. now rewrite get_characters_loop_gathered.
  - intros path after e Hraise Hexit. unfold get_characters.
    assert (Hgen : forall characters records,
              get_characters_loop import_character (paths ++ path :: after)
                characters records
              = (Raise e, records ++ failures_logged import_character paths)).
    { induction Hall as [|p ps Hp _ IH]; intros characters records; simpl.
      - rewrite Hraise, Hexit. now rewrite app_nil_r.
      - destruct (import_character (module_name p) (str_path p))
          as [[character|]|e'|]; simpl in *.
        + apply IH.
        + apply IH.
        + rewrite Hp, IH. now rewrite <- app_assoc.
        + contradiction. }
    now rewrite Hgen.
Qed.

(** X22 on three files: one with a character, one whose import raises
    [ValueError], one without a character. *)
Lemma get_characters_skips_failed_files_witness :
  get_characters sample_import sample_paths
  = (Ok [herald],
     [import_failed {| Path.parent := "src/resources/characters";
                       Path.name := "broken.py" |}]).
Proof.
  destruct (get_characters_skips_failed_files sample_import sample_paths)
    as [Hload _].
  - repeat constructor.
  - exact Hload.
Defined.

(** ** The module name of a character file *)

Lemma string_rev_app (s t : string) :
  string_rev (s +:+ t) = string_rev t +:+ string_rev s.
Proof.
  induction s as [|c s IH].
  - rewrite append_empty_l. simpl. now rewrite append_empty_r.
  - rewrite append_cons. simpl. rewrite IH. now rewrite append_assoc3.
Qed.

Lemma string_rev_involutive (s : string) : string_rev (string_rev s) = s.
Proof.
  induction s as [|c s IH]; [reflexivity|].
  simpl. rewrite string_rev_app, IH. reflexivity.
Qed.

Lemma lstrip_starts_clean (chars s : string) :
  starts_clean chars (lstrip chars s) = true.
Proof.
  induction s as [|c s IH]; [reflexivity|].
  simpl. destruct (string_existsb (Ascii.eqb c) chars) eqn:E; [exact IH|].
  simpl. now rewrite E.
Qed.

Lemma lstrip_clean (chars s : string) :
  starts_clean chars s = true -> lstrip chars s = s.
Proof.
  destruct s as [|c s]; [reflexivity|].
  simpl. intros H. apply negb_true_iff in H. now rewrite H.
Qed.

Lemma lstrip_suffix (chars s : string) :
  exists taken, s = taken +:+ lstrip chars s.
Proof.
  induction s as [|c s [taken IH]]; [now exists ""|].
  simpl. destruct (string_existsb (Ascii.eqb c) chars).
  - exists (String c taken). rewrite append_cons. now f_equal.
  - now exists "".
Qed.

Lemma rstrip_prefix (chars s : string) :
  exists taken, s = rstrip chars s +:+ taken.
Proof.
  destruct (lstrip_suffix chars (string_rev s)) as [taken H].
  exists (string_rev taken). unfold rstrip.
  rewrite <- string_rev_app, <- H. now rewrite string_rev_involutive.
Qed.

(** What [strip] returns neither begins nor ends with one of the
    characters. *)
Lemma strip_clean (chars s : string) :
  starts_clean chars (strip chars s) = true
  /\ starts_clean chars (string_rev (strip chars s)) = true.
Proof.
  unfold strip. split.
  - destruct (rstrip_prefix chars (lstrip chars s)) as [taken H].
    pose proof (lstrip_starts_clean chars s) as Hclean.
    rewrite H in Hclean.
    destruct (rstrip chars (lstrip chars s)) as [|c r] eqn:E; [reflexivity|].
    rewrite append_cons in Hclean. exact Hclean.
  - unfold rstrip. rewrite string_rev_involutive. apply lstrip_starts_clean.
Qed.

(** X23. The module name [get_characters] gives to a file [stem.py] is
    [stem] exactly when [stem] neither begins nor ends with a full stop,
    a [p] or a [y]: [strip(".py")] takes these three characters off both
    ends of the name as long as it finds them, not the suffix only. *)
Theorem module_name_is_the_stem_iff (parent stem : string) :
  module_name {| Path.parent := parent; Path.name := stem +:+ ".py" |} = stem
  <-> starts_clean ".py" stem = true
      /\ starts_clean ".py" (string_rev stem) = true.
Proof.
  unfold module_name. simpl. split.
  - intros H. rewrite <- H at 1 2. apply strip_clean.
  - intros [Hstart Hend].
    destruct stem as [|c stem]; [reflexivity|].
    unfold strip.
    rewrite (lstrip_clean ".py" (String c stem +:+ ".py")) by exact Hstart.
    unfold rstrip. rewrite string_rev_app.
    change (string_rev ".py") with "yp.".
    change ("yp." +:+ string_rev (String c stem))
      with (String "y" (String "p" (String "." (string_rev (String c stem))))).
    change (lstrip ".py"
              (String "y" (String "p" (String "." (string_rev (String c stem))))))
      with (lstrip ".py" (string_rev (String c stem))).
    rewrite lstrip_clean by exact Hend.
    apply string_rev_involutive.
Qed.

(** X23 on the files [herald.py] and [happy.py]. *)
Lemma module_name_is_the_stem_iff_witness :
  module_name {| Path.parent := "characters"; Path.name := "herald.py" |} = "herald"
  /\ module_name {| Path.parent := "characters"; Path.name := "happy.py" |}
     <> "happy".
Proof.
  split.
  - apply (module_name_is_the_stem_iff "characters" "herald"). split; reflexivity.
  - intros H. apply (module_name_is_the_stem_iff "characters" "happy") in H.
    destruct H as [_ H]. discriminate H.
Defined.
